(** * CTXC wallet tool: unit conversion, fee selection, submission pipeline
      and key registry of [main.py], embedded and verified.

    The embedding follows the Python source function by function:

    - [Decimal] arithmetic as the [decimal] module performs it in the context
      the program installs ([decimal.getcontext().prec = 50]);
    - [to_wei] / [from_wei] (lines 58-62);
    - [load_accounts] (lines 98-126) over an ordered environment;
    - [build_tx] (lines 285-319) and [send_ctxc] (lines 321-409) as programs
      of a small interaction monad whose events are the calls into the node
      client, the console and the signer;
    - [normalize_rpc], [load_web3], [enforced_chain_id] (lines 64-92) as
      functions of the environment and of the node's answers;
    - [get_all_balances] (lines 128-137) in the same interaction monad;
    - [pick_account] (lines 172-191) and the favourites, [fav_load] to
      [fav_pick] (lines 194-282), by explicit state passing over the console
      and the favourites file. *)

From Stdlib Require Import ZArith List String Ascii Bool Lia.
From Stdlib Require Import Sorting.Sorted Sorting.Permutation.
Import ListNotations.

Local Open Scope Z_scope.

(** ** Exceptions and fallible results *)

(** The exception classes that the modelled code can meet.  Only the class
    matters to the control flow ([except Exception] catches all of them,
    line 408 catches three); messages are display only and left out.
    [NodeError] stands for any other [Exception] subclass raised by the node
    client (connection errors, timeouts, malformed replies). *)
Inductive Exn : Set :=
| ValueError
| TypeError
| KeyError
| OverflowError
| RuntimeError
| ContractLogicError
| InvalidOperation
| DivisionByZero
| DecimalOverflow
| EOFError
| NodeError.

Inductive result (A : Type) : Type :=
| Ok (a : A)
| Raise (e : Exn).
Arguments Ok {A} a.
Arguments Raise {A} e.

Definition rbind {A B} (r : result A) (f : A -> result B) : result B :=
  match r with
  | Ok a => f a
  | Raise e => Raise e
  end.

Declare Scope result_scope.
Delimit Scope result_scope with result.
Notation "x <- r ;; k" := (rbind r (fun x => k))
  (at level 61, r at next level, right associativity) : result_scope.

Definition is_ok {A} (r : result A) : bool :=
  match r with Ok _ => true | Raise _ => false end.

(** ** Python string helpers (ASCII)

    Strings are sequences of 8-bit characters; [strip], [lower] and the
    digit test are Python's on the ASCII range. *)

Module PyStr.

Definition code (c : ascii) : nat := nat_of_ascii c.

(** [str.isspace] on the ASCII range: TAB..CR, FS..US and SPACE. *)
Definition is_space (c : ascii) : bool :=
  let n := code c in
  ((9 <=? n) && (n <=? 13) || (28 <=? n) && (n <=? 32))%nat.

Definition is_digit (c : ascii) : bool :=
  let n := code c in ((48 <=? n) && (n <=? 57))%nat.

Definition is_upper (c : ascii) : bool :=
  let n := code c in ((65 <=? n) && (n <=? 90))%nat.

Definition lower_char (c : ascii) : ascii :=
  if is_upper c then ascii_of_nat (code c + 32) else c.

Fixpoint lower (s : string) : string :=
  match s with
  | EmptyString => EmptyString
  | String c s' => String (lower_char c) (lower s')
  end.

Fixpoint lstrip (s : string) : string :=
  match s with
  | EmptyString => EmptyString
  | String c s' => if is_space c then lstrip s' else s
  end.

Fixpoint rev_onto (s acc : string) : string :=
  match s with
  | EmptyString => acc
  | String c s' => rev_onto s' (String c acc)
  end.

Definition rev (s : string) : string := rev_onto s EmptyString.

Definition rstrip (s : string) : string := rev (lstrip (rev s)).

Definition strip (s : string) : string := rstrip (lstrip s).

(** [s.startswith(p)] *)
Definition startswith (s p : string) : bool := String.prefix p s.

Fixpoint drop (n : nat) (s : string) : string :=
  match n, s with
  | O, _ => s
  | S _, EmptyString => EmptyString
  | S n', String _ s' => drop n' s'
  end.

(** [s.replace(old, new, 1)]: the leftmost occurrence only. *)
Fixpoint replace_first (old new s : string) : string :=
  if String.prefix old s then (new ++ drop (String.length old) s)%string
  else match s with
       | EmptyString => EmptyString
       | String c s' => String c (replace_first old new s')
       end.

(** [s.replace(c, "")] for a single character [c]. *)
Fixpoint remove_char (c : ascii) (s : string) : string :=
  match s with
  | EmptyString => EmptyString
  | String d s' =>
      if Ascii.eqb c d then remove_char c s' else String d (remove_char c s')
  end.

(** Truth value of a string: [not s] is [true] exactly for the empty one. *)
Definition truthy (s : string) : bool :=
  match s with EmptyString => false | _ => true end.

End PyStr.

(** ** The [decimal] module at precision 50 *)

Module Dec.

(** A [Decimal] is a sign, a non-negative coefficient and an exponent, or
    one of the special values. *)
Inductive Decimal : Set :=
| Finite (sign : bool) (coef : Z) (exp : Z)
| Infinity (sign : bool)
| NaN (signaling : bool).

(** Line 54: [decimal.getcontext().prec = 50]; the other fields keep the
    defaults of the module (rounding ROUND_HALF_EVEN, clamp 0, traps on
    InvalidOperation, DivisionByZero and Overflow). *)
Definition prec : Z := 50.
Definition Emax : Z := 999999.
Definition Emin : Z := -999999.

(** [len(str(n))] for [n >= 0]. *)
Fixpoint ndigits_fuel (fuel : nat) (n : Z) : Z :=
  match fuel with
  | O => 1
  | S f => if n <? 10 then 1 else 1 + ndigits_fuel f (n / 10)
  end.

Definition ndigits (n : Z) : Z :=
  ndigits_fuel (S (Z.to_nat (Z.log2 n))) n.

(** ROUND_HALF_EVEN on the [k] low digits of [c]: does the kept part go
    up by one? *)
Definition round_half_even (c k : Z) : bool :=
  let r := c mod 10 ^ k in
  let q := c / 10 ^ k in
  (2 * r >? 10 ^ k) || ((2 * r =? 10 ^ k) && Z.odd q).

(** [Decimal._fix]: round a finite value to a context of precision [p]
    (the exponent limits are the same in every context the program and
    its libraries use). *)
Definition fix_at (p : Z) (s : bool) (c e : Z) : result Decimal :=
  let Etiny := Emin - p + 1 in
  let Etop := Emax - p + 1 in
  if c =? 0 then Ok (Finite s 0 (Z.min (Z.max e Etiny) Emax))
  else
    let exp_min0 := ndigits c + e - p in
    if exp_min0 >? Etop then Raise DecimalOverflow
    else
      let exp_min := if exp_min0 <? Etiny then Etiny else exp_min0 in
      if e <? exp_min then
        let digits0 := ndigits c + e - exp_min in
        let c1 := if digits0 <? 0 then 1 else c in
        let digits := if digits0 <? 0 then 0 else digits0 in
        let k := ndigits c1 - digits in
        let coeff := c1 / 10 ^ k in
        let '(coeff, exp_min) :=
          if round_half_even c1 k then
            if ndigits (coeff + 1) >? p
            then ((coeff + 1) / 10, exp_min + 1)
            else (coeff + 1, exp_min)
          else (coeff, exp_min) in
        if exp_min >? Etop then Raise DecimalOverflow
        else Ok (Finite s coeff exp_min)
      else Ok (Finite s c e).

Definition fix_ : bool -> Z -> Z -> result Decimal := fix_at prec.

(** [Decimal.__mul__] in a context of precision [p]. *)
Definition mul_at (p : Z) (a b : Decimal) : result Decimal :=
  match a, b with
  | NaN true, _ | _, NaN true => Raise InvalidOperation
  | NaN false, _ | _, NaN false => Ok (NaN false)
  | Infinity s1, Infinity s2 => Ok (Infinity (xorb s1 s2))
  | Infinity s1, Finite s2 c2 _ =>
      if c2 =? 0 then Raise InvalidOperation else Ok (Infinity (xorb s1 s2))
  | Finite s1 c1 _, Infinity s2 =>
      if c1 =? 0 then Raise InvalidOperation else Ok (Infinity (xorb s1 s2))
  | Finite s1 c1 e1, Finite s2 c2 e2 =>
      fix_at p (xorb s1 s2) (c1 * c2) (e1 + e2)
  end.

Definition mul : Decimal -> Decimal -> result Decimal := mul_at prec.

(** The loop of [__truediv__] for an exact quotient:
    [while exp < ideal_exp and coeff % 10 == 0: coeff //= 10; exp += 1],
    which runs at most [ideal_exp - exp] times. *)
Fixpoint strip_zeros (n : nat) (coeff exp : Z) : Z * Z :=
  match n with
  | O => (coeff, exp)
  | S n' =>
      if coeff mod 10 =? 0 then strip_zeros n' (coeff / 10) (exp + 1)
      else (coeff, exp)
  end.

(** [Decimal.__truediv__] *)
Definition div (a b : Decimal) : result Decimal :=
  match a, b with
  | NaN true, _ | _, NaN true => Raise InvalidOperation
  | NaN false, _ | _, NaN false => Ok (NaN false)
  | Infinity _, Infinity _ => Raise InvalidOperation
  | Infinity s1, Finite s2 _ _ => Ok (Infinity (xorb s1 s2))
  | Finite s1 _ _, Infinity s2 => Ok (Finite (xorb s1 s2) 0 (Emin - prec + 1))
  | Finite s1 c1 e1, Finite s2 c2 e2 =>
      let sign := xorb s1 s2 in
      if c2 =? 0 then
        if c1 =? 0 then Raise InvalidOperation else Raise DivisionByZero
      else if c1 =? 0 then fix_ sign 0 (e1 - e2)
      else
        let shift := ndigits c2 - ndigits c1 + prec + 1 in
        let exp := e1 - e2 - shift in
        let '(coeff, remainder) :=
          if shift >=? 0 then Z.div_eucl (c1 * 10 ^ shift) c2
          else Z.div_eucl c1 (c2 * 10 ^ (- shift)) in
        let '(coeff, exp) :=
          if remainder =? 0
          then strip_zeros (Z.to_nat (e1 - e2 - exp)) coeff exp
          else (if coeff mod 5 =? 0 then coeff + 1 else coeff, exp) in
        fix_ sign coeff exp
  end.

(** [Decimal.__int__]: truncation towards zero. *)
Definition to_int (d : Decimal) : result Z :=
  match d with
  | NaN _ => Raise ValueError
  | Infinity _ => Raise OverflowError
  | Finite s c e =>
      let m := if e >=? 0 then c * 10 ^ e else c / 10 ^ (- e) in
      Ok (if s then - m else m)
  end.

(** [Decimal(n)] for an [int]: exact, whatever the precision. *)
Definition of_int (n : Z) : Decimal := Finite (n <? 0) (Z.abs n) 0.

(** [a == b]: numerical equality; a quiet NaN equals nothing, a signaling
    one raises. *)
Definition signed (s : bool) (c : Z) : Z := if s then - c else c.

Definition eq (a b : Decimal) : result bool :=
  match a, b with
  | NaN true, _ | _, NaN true => Raise InvalidOperation
  | NaN false, _ | _, NaN false => Ok false
  | Infinity s1, Infinity s2 => Ok (Bool.eqb s1 s2)
  | Infinity _, Finite _ _ _ | Finite _ _ _, Infinity _ => Ok false
  | Finite s1 c1 e1, Finite s2 c2 e2 =>
      let m := Z.min e1 e2 in
      Ok (signed s1 c1 * 10 ^ (e1 - m) =? signed s2 c2 * 10 ^ (e2 - m))
  end.

(** *** [Decimal(str)]: the numeric-string syntax *)

Definition digit_val (c : ascii) : Z := Z.of_nat (PyStr.code c) - 48.

Fixpoint span_digits (s : string) : list ascii * string :=
  match s with
  | String c s' =>
      if PyStr.is_digit c
      then let '(ds, rest) := span_digits s' in (c :: ds, rest)
      else ([], s)
  | EmptyString => ([], s)
  end.

Definition digits_to_Z (ds : list ascii) : Z :=
  fold_left (fun acc d => 10 * acc + digit_val d) ds 0.

Definition split_sign (s : string) : bool * string :=
  match s with
  | String "-"%char s' => (true, s')
  | String "+"%char s' => (false, s')
  | _ => (false, s)
  end.

(** [(E(?P<exp>[-+]?\d+))?\Z] *)
Definition parse_exponent (s : string) : result Z :=
  match s with
  | EmptyString => Ok 0
  | String c s' =>
      if Ascii.eqb (PyStr.lower_char c) "e"%char then
        let '(neg, s1) := split_sign s' in
        match span_digits s1 with
        | ((_ :: _) as ds, EmptyString) => Ok (signed neg (digits_to_Z ds))
        | _ => Raise InvalidOperation
        end
      else Raise InvalidOperation
  end.

(** [Inf(inity)?] or [s?NaN\d*], case-insensitive. *)
Definition parse_special (sign : bool) (s : string) : result Decimal :=
  let l := PyStr.lower s in
  if (String.eqb l "inf" || String.eqb l "infinity")%bool then Ok (Infinity sign)
  else if String.prefix "nan" l then
    match span_digits (PyStr.drop 3 l) with
    | (_, EmptyString) => Ok (NaN false)
    | _ => Raise InvalidOperation
    end
  else if String.prefix "snan" l then
    match span_digits (PyStr.drop 4 l) with
    | (_, EmptyString) => Ok (NaN true)
    | _ => Raise InvalidOperation
    end
  else Raise InvalidOperation.

Definition of_string (v : string) : result Decimal :=
  let s := PyStr.remove_char "_"%char (PyStr.strip v) in
  let '(sign, s1) := split_sign s in
  let '(intpart, s2) := span_digits s1 in
  let '(fracpart, s3) :=
    match s2 with
    | String "."%char r => span_digits r
    | _ => ([], s2)
    end in
  match intpart, fracpart with
  | [], [] => parse_special sign s1
  | _, _ =>
      match parse_exponent s3 with
      | Ok e =>
          Ok (Finite sign (digits_to_Z (intpart ++ fracpart))
                (e - Z.of_nat (List.length fracpart)))
      | Raise x => Raise x
      end
  end.

(** [Decimal(10) ** 18] evaluates, in this context, to the exact value
    with coefficient [10^18] and exponent [0]. *)
Definition TEN18 : Decimal := Finite false (10 ^ 18) 0.

End Dec.

(** ** Unit conversion (lines 58-62) *)

Local Open Scope result_scope.

(** [int(Decimal(...) * Decimal(10) ** 18)] once the amount is a Decimal. *)
Definition to_wei_dec (d : Dec.Decimal) : result Z :=
  r <- Dec.mul d Dec.TEN18 ;; Dec.to_int r.

(** [to_wei] on a string amount, the only kind [send_ctxc] passes:
    [str] is the identity on strings and [Decimal] parses it. *)
Definition to_wei (amount_ctxc : string) : result Z :=
  d <- Dec.of_string amount_ctxc ;; to_wei_dec d.

Definition from_wei (wei_amount : Z) : result Dec.Decimal :=
  Dec.div (Dec.of_int wei_amount) Dec.TEN18.


(** ** The conversions of the node-client library ([w3.to_wei], [w3.from_wei])

    These belong to eth-utils, not to the repository; they are modelled from
    the library as far as the code depends on them: which integer comes back
    and when the call raises. *)

Module W3.

Definition MIN_WEI : Z := 0.
Definition MAX_WEI : Z := 2 ^ 256 - 1.

(** Numerical comparison of a finite Decimal with an integer. *)
Definition lt_int (d : Dec.Decimal) (n : Z) : bool :=
  match d with
  | Dec.Finite s c e =>
      if e >=? 0 then Dec.signed s c * 10 ^ e <? n
      else Dec.signed s c <? n * 10 ^ (- e)
  | Dec.Infinity s => s
  | Dec.NaN _ => false
  end.

Definition gt_int (d : Dec.Decimal) (n : Z) : bool :=
  match d with
  | Dec.Finite s c e =>
      if e >=? 0 then Dec.signed s c * 10 ^ e >? n
      else Dec.signed s c >? n * 10 ^ (- e)
  | Dec.Infinity s => negb s
  | Dec.NaN _ => false
  end.

(** [w3.to_wei(number, "gwei")]: zero maps to [0]; otherwise the number is
    scaled by [10^9] in a local context of precision 999, a result outside
    [MIN_WEI .. MAX_WEI] raises [ValueError], and the integer part comes
    back.  A NaN fails in the library's comparisons. *)
Definition to_wei_gwei (number : Dec.Decimal) : result Z :=
  match number with
  | Dec.NaN _ => Raise InvalidOperation
  | Dec.Infinity _ => Raise ValueError
  | Dec.Finite _ c _ =>
      if c =? 0 then Ok 0
      else
        result_value <- Dec.mul_at 999 number (Dec.Finite false (10 ^ 9) 0) ;;
        if lt_int result_value MIN_WEI || gt_int result_value MAX_WEI
        then Raise ValueError
        else Dec.to_int result_value
  end.

(** [w3.from_wei(number, "gwei")] is called for display only (lines 367
    and 370); what reaches the control flow is whether it raises: it does
    for a non-zero number outside [MIN_WEI .. MAX_WEI]. *)
Definition from_wei_gwei (number : Z) : result unit :=
  if number =? 0 then Ok tt
  else if (number <? MIN_WEI) || (number >? MAX_WEI) then Raise ValueError
  else Ok tt.

End W3.

(** ** Python dictionaries with insertion order *)

Module Dict.

Section Ops.
Context {V : Type}.

Fixpoint get (k : string) (d : list (string * V)) : option V :=
  match d with
  | [] => None
  | (k', v) :: d' => if String.eqb k k' then Some v else get k d'
  end.

Definition mem (k : string) (d : list (string * V)) : bool :=
  match get k d with Some _ => true | None => false end.

(** [d[k] = v]: an existing key keeps its place, a new one goes last. *)
Fixpoint set (k : string) (v : V) (d : list (string * V))
  : list (string * V) :=
  match d with
  | [] => [(k, v)]
  | (k', v') :: d' =>
      if String.eqb k k' then (k', v) :: d' else (k', v') :: set k v d'
  end.

Definition keys (d : list (string * V)) : list string := map fst d.

(** [sorted(d.items(), key=lambda x: x[0].lower())]: a stable sort on
    the lower-cased key. *)
Definition key_le (x y : string * V) : bool :=
  String.leb (PyStr.lower (fst x)) (PyStr.lower (fst y)).

Fixpoint insert (x : string * V) (l : list (string * V))
  : list (string * V) :=
  match l with
  | [] => [x]
  | y :: l' => if key_le x y then x :: l else y :: insert x l'
  end.

Definition sorted_items (d : list (string * V)) : list (string * V) :=
  fold_right insert [] d.

(** The order of the result: lower-cased keys do not decrease. *)
Definition ordered (x y : string * V) : Prop := key_le x y = true.

End Ops.

End Dict.

(** ** Data of the wallet *)

(** [LocalAccount]: what the code reads of it. *)
Record LocalAccount : Set := mkAccount { address : string; key : string }.

(** The process environment, in the order [os.environ.items()] yields it. *)
Definition Env : Set := list (string * string).

Definition getenv (env : Env) (k : string) : option string := Dict.get k env.

(** A line [PERINGATAN: <variable> tidak valid: <exception>] on stderr. *)
Record Warning : Set := mkWarning { variable : string; cause : Exn }.

Definition Registry : Set := list (string * LocalAccount).

(** Values of the transaction dictionary. *)
Inductive Val : Set :=
| VStr (s : string)
| VInt (z : Z).

Definition Tx : Set := list (string * Val).

(** [tx[k]] where the code needs an integer. *)
Definition tx_int (tx : Tx) (k : string) : result Z :=
  match Dict.get k tx with
  | Some (VInt z) => Ok z
  | Some (VStr _) => Raise TypeError
  | None => Raise KeyError
  end.

(** [SignedTransaction]: the two attribute names under which library
    versions expose the raw bytes; [None] is a missing attribute. *)
Record SignedTransaction : Set := mkSigned {
  rawTransaction : option string;
  raw_transaction : option string
}.

(** ** Interaction with the node, the console, the signer *)

Inductive Prompt : Set :=
| PromptDestination   (* "Pilih [1/2]: " *)
| PromptAddress       (* "Alamat tujuan 0x...: " *)
| PromptAmount        (* "Nominal ... (misal 1.0)...: " *)
| PromptTip           (* "Priority fee (gwei) [kosong = auto]: " *)
| PromptConfirm.      (* "Kirim transaksi? ketik 'YA' untuk lanjut: " *)

(** The calls that leave the process.  Quantities reported by the node are
    unsigned (JSON-RPC quantities).  [FavPick] is the address book
    ([fav_pick]), a collaborator of the pipeline. *)
Inductive Event : Type -> Type :=
| Input (p : Prompt) : Event string
| GetBalance (addr : string) : Event N
| GetTransactionCount (addr : string) : Event N
| GetBlockLatest : Event (option N)
| MaxPriorityFee : Event N
| GasPrice : Event N
| FavPick : Event (option string)
| SignTransaction (tx : Tx) (private_key : string) : Event SignedTransaction
| SendRawTransaction (raw : string) : Event string.

(** A program performs events; each one answers with a value or raises. *)
Inductive Prog (A : Type) : Type :=
| Ret (r : result A)
| Vis {X : Type} (e : Event X) (k : result X -> Prog A).
Arguments Ret {A} r.
Arguments Vis {A X} e k.

Fixpoint pbind {A B} (p : Prog A) (f : A -> Prog B) : Prog B :=
  match p with
  | Ret (Ok a) => f a
  | Ret (Raise e) => Ret (Raise e)
  | Vis e k => Vis e (fun r => pbind (k r) f)
  end.

Definition ret {A} (a : A) : Prog A := Ret (Ok a).
Definition raise {A} (e : Exn) : Prog A := Ret (Raise e).
Definition lift {A} (r : result A) : Prog A := Ret r.

(** An unguarded call: an exception propagates. *)
Definition call {X} (e : Event X) : Prog X := Vis e Ret.

(** [try: p  except Exception: ...]: the outcome of [p] as a value. *)
Fixpoint try_ {A} (p : Prog A) : Prog (result A) :=
  match p with
  | Ret r => Ret (Ok r)
  | Vis e k => Vis e (fun r => try_ (k r))
  end.

Declare Scope prog_scope.
Delimit Scope prog_scope with prog.
Notation "x <- p ;; k" := (pbind p (fun x => k))
  (at level 61, p at next level, right associativity) : prog_scope.
Notation "p ;;; k" := (pbind p (fun _ => k))
  (at level 61, right associativity) : prog_scope.

(** The environment of a run: any deterministic answerer with a state of
    its own. *)
Definition handler (S : Type) : Type :=
  forall X : Type, Event X -> S -> result X * S.

Definition Call : Type := { X : Type & Event X }.

Definition mkCall {X} (e : Event X) : Call := existT _ X e.

(** Running a program: its result, the final state of the environment and
    the calls made, in order. *)
Fixpoint run {S A} (h : handler S) (p : Prog A) (s : S)
  : result A * S * list Call :=
  match p with
  | Ret r => (r, s, [])
  | Vis e k =>
      let '(x, s1) := h _ e s in
      let '(r, s2, tr) := run h (k x) s1 in
      (r, s2, mkCall e :: tr)
  end.

(** Signing and broadcasting are the calls that commit a transfer. *)
Definition is_sign_or_broadcast (c : Call) : bool :=
  match projT2 c with
  | SignTransaction _ _ => true
  | SendRawTransaction _ => true
  | _ => false
  end.

Definition is_broadcast (c : Call) : bool :=
  match projT2 c with
  | SendRawTransaction _ => true
  | _ => false
  end.

(** ** The wallet, over the two cryptographic library functions

    [Account.from_key] (key derivation) and [w3.to_checksum_address]
    (checksum validation) are pure functions of eth-account and web3; the
    development is parametric in them. *)

Section Wallet.

Variable from_key : string -> result LocalAccount.
Variable to_checksum_address : string -> result string.

(** *** Key registry (lines 98-126) *)

(** The body of both [try] blocks: derive the account, validate its
    address. *)
Definition derive (v : string) : result LocalAccount :=
  (acct <- from_key v ;;
   _ <- to_checksum_address (address acct) ;;
   Ok acct)%result.

Definition LoadState : Set := Registry * list Warning.

(** Lines 104-111. *)
Definition load_legacy (env : Env) (st : LoadState) : LoadState :=
  let '(accounts, warnings) := st in
  match getenv env "CTXC_PRIVATE_KEY" with
  | Some legacy =>
      if PyStr.truthy legacy then
        match derive legacy with
        | Ok acct => (Dict.set "LEGACY" acct accounts, warnings)
        | Raise e =>
            (accounts, warnings ++ [mkWarning "CTXC_PRIVATE_KEY" e])
        end
      else st
  | None => st
  end.

(** The name under which a variable is registered (line 116). *)
Definition credential_name (k : string) : string :=
  PyStr.strip (PyStr.replace_first "CTXC_PK_" "" k).

(** One turn of the loop of lines 113-124. *)
Definition load_named (st : LoadState) (kv : string * string) : LoadState :=
  let '(accounts, warnings) := st in
  let '(k, v) := kv in
  if negb (PyStr.startswith k "CTXC_PK_") then st
  else
    let name := credential_name k in
    if negb (PyStr.truthy name) || negb (PyStr.truthy v) then st
    else
      match derive v with
      | Ok acct => (Dict.set name acct accounts, warnings)
      | Raise e => (accounts, warnings ++ [mkWarning k e])
      end.

Definition load_accounts (env : Env) : Registry * list Warning :=
  let '(accounts, warnings) :=
    fold_left load_named env (load_legacy env ([], [])) in
  (Dict.sorted_items accounts, warnings).

(** The credential sources that the loader examines, in its order, each
    with the variable it comes from, the name it registers under and its
    value: the legacy variable when it is set and not empty, then every
    [CTXC_PK_] variable whose name and value are not empty. *)
Definition Candidate : Set := string * string * string.

Definition legacy_candidate (env : Env) : list Candidate :=
  match getenv env "CTXC_PRIVATE_KEY" with
  | Some legacy =>
      if PyStr.truthy legacy then [("CTXC_PRIVATE_KEY", "LEGACY", legacy)]
      else []
  | None => []
  end%string.

Definition named_candidate (kv : string * string) : list Candidate :=
  let '(k, v) := kv in
  if PyStr.startswith k "CTXC_PK_" && PyStr.truthy (credential_name k)
     && PyStr.truthy v
  then [(k, credential_name k, v)]
  else [].

Definition candidates (env : Env) : list Candidate :=
  legacy_candidate env ++ flat_map named_candidate env.

(** What the loader does with one candidate. *)
Definition register (st : LoadState) (c : Candidate) : LoadState :=
  let '(accounts, warnings) := st in
  let '(k, name, v) := c in
  match derive v with
  | Ok acct => (Dict.set name acct accounts, warnings)
  | Raise e => (accounts, warnings ++ [mkWarning k e])
  end.

(** The warnings owed to the candidates that fail, in order. *)
Definition failures (cs : list Candidate) : list Warning :=
  flat_map (fun c : Candidate =>
              let '(k, _, v) := c in
              match derive v with
              | Ok _ => []
              | Raise e => [mkWarning k e]
              end) cs.

(** The names of the candidates that pass, in order. *)
Definition valid_names (cs : list Candidate) : list string :=
  flat_map (fun c : Candidate =>
              let '(_, name, v) := c in
              match derive v with
              | Ok _ => [name]
              | Raise _ => []
              end) cs.

(** Is a candidate one that passes under the name [name]? *)
Definition passes_as (name : string) (c : Candidate) : bool :=
  let '(_, name', v) := c in
  String.eqb name' name && is_ok (derive v).

(** A credential source of the environment: the legacy variable, or a
    variable with the [CTXC_PK_] prefix. *)
Definition credential_source (env : Env) (k v : string) : Prop :=
  (k = "CTXC_PRIVATE_KEY"%string /\ getenv env k = Some v) \/
  (In (k, v) env /\ PyStr.startswith k "CTXC_PK_" = true).

(** The contract of the registry in the words of the specification: each
    credential that fails is excluded with a warning, each valid one is
    loaded, and the result is ordered by lower-cased name. *)
Definition registry_contract_as_specified (env : Env) : Prop :=
  (forall k v e,
      credential_source env k v -> derive v = Raise e ->
      In (mkWarning k e) (snd (load_accounts env))) /\
  (forall k v a,
      credential_source env k v -> derive v = Ok a ->
      In a (map snd (fst (load_accounts env)))) /\
  Sorted Dict.ordered (fst (load_accounts env)).

(** *** Fee selection and transaction building (lines 285-319) *)

Local Open Scope prog_scope.

Definition GAS_LIMIT_TRANSFER : Z := 21000.

(** [w3.to_wei(2, "gwei")] *)
Definition two_gwei : result Z := W3.to_wei_gwei (Dec.of_int 2).

(** Lines 288-292: the base fee of the latest block; a failed query
    counts as a block without one. *)
Definition latest_base_fee : Prog (option N) :=
  latest <- try_ (call GetBlockLatest) ;;
  ret (match latest with Ok b => b | Raise _ => None end).

(** Lines 293-299: the priority fee, in smallest units. *)
Definition choose_priority (tip_gwei : option Dec.Decimal) : Prog Z :=
  match tip_gwei with
  | None =>
      suggested <- try_ (call MaxPriorityFee) ;;
      match suggested with
      | Ok p => ret (Z.of_N p)
      | Raise _ => lift two_gwei
      end
  | Some tip => lift (W3.to_wei_gwei tip)
  end.

(** Lines 302-305: the gas price of the legacy model. *)
Definition legacy_gas_price : Prog Z :=
  quoted <- try_ (call GasPrice) ;;
  match quoted with
  | Ok g => ret (Z.of_N g)
  | Raise _ => lift two_gwei
  end.

Definition build_tx (from_addr to_addr : string)
    (value_wei nonce chain_id : Z) (tip_gwei : option Dec.Decimal)
  : Prog (Tx * string) :=
  base_fee <- latest_base_fee ;;
  priority <- choose_priority tip_gwei ;;
  match base_fee with
  | None =>
      gas_price <- legacy_gas_price ;;
      ret ([("from", VStr from_addr); ("to", VStr to_addr);
            ("value", VInt value_wei); ("nonce", VInt nonce);
            ("gas", VInt GAS_LIMIT_TRANSFER); ("gasPrice", VInt gas_price);
            ("chainId", VInt chain_id)]%string,
           "legacy"%string)
  | Some base_fee =>
      let max_fee := Z.of_N base_fee * 2 + priority in
      ret ([("from", VStr from_addr); ("to", VStr to_addr);
            ("value", VInt value_wei); ("nonce", VInt nonce);
            ("gas", VInt GAS_LIMIT_TRANSFER); ("maxFeePerGas", VInt max_fee);
            ("maxPriorityFeePerGas", VInt priority);
            ("chainId", VInt chain_id)]%string,
           "eip1559"%string)
  end.

(** *** Submission (lines 321-409) *)

(** How a call of [send_ctxc] ends when it returns: the message it prints
    before [return], or the hash it reports. *)
Inductive Outcome : Set :=
| NoDestination            (* "Tidak ada yang dipilih." *)
| InvalidAddress           (* "Alamat tujuan tidak valid." *)
| InvalidAmount            (* "Nominal tidak valid." *)
| InsufficientFunds        (* "ERROR: Saldo tidak cukup ..." *)
| UserCancelled            (* "Dibatalkan." *)
| SendFailed (e : Exn)     (* "ERROR kirim transaksi: ..." *)
| Sent (tx_hash : string). (* "=== Transaksi dikirim! ===" *)

(** What lines 322-363 hand to the rest of the function. *)
Record Prepared : Set := mkPrepared {
  from_addr : string;
  to_addr : string;
  value_wei : Z;
  tx : Tx
}.

(** Lines 354-360: an empty answer or one that [Decimal] rejects means
    "automatic". *)
Definition parse_tip (tip_in : string) : option Dec.Decimal :=
  if PyStr.truthy tip_in then
    match Dec.of_string tip_in with
    | Ok d => Some d
    | Raise _ => None
    end
  else None.

(** Lines 322-346: the sender's address and the destination. *)
Definition choose_destination (acct : LocalAccount)
  : Prog (Outcome + string * string) :=
  from_addr <- lift (to_checksum_address (address acct)) ;;
  try_ (call (GetBalance from_addr)) ;;;
  choice_in <- call (Input PromptDestination) ;;
  let choice :=
    if PyStr.truthy (PyStr.strip choice_in) then PyStr.strip choice_in
    else "2"%string in
  if String.eqb choice "1" then
    picked <- call FavPick ;;
    match picked with
    | Some a =>
        if PyStr.truthy a then ret (inr (from_addr, a))
        else ret (inl NoDestination)
    | None => ret (inl NoDestination)
    end
  else
    to_in <- call (Input PromptAddress) ;;
    match to_checksum_address (PyStr.strip to_in) with
    | Ok a => ret (inr (from_addr, a))
    | Raise _ => ret (inl InvalidAddress)
    end.

(** Lines 348-363: the amount, the tip, the nonce and the transaction. *)
Definition read_amount_and_build (chain_id : Z) (from_addr to_addr : string)
  : Prog (Outcome + Prepared) :=
  amount_in <- call (Input PromptAmount) ;;
  match to_wei (PyStr.strip amount_in) with
  | Raise _ => ret (inl InvalidAmount)
  | Ok value_wei =>
      tip_in <- call (Input PromptTip) ;;
      let tip_gwei := parse_tip (PyStr.strip tip_in) in
      nonce <- call (GetTransactionCount from_addr) ;;
      built <- build_tx from_addr to_addr value_wei (Z.of_N nonce)
                 chain_id tip_gwei ;;
      ret (inr (mkPrepared from_addr to_addr value_wei (fst built)))
  end.

(** Lines 322-363. *)
Definition send_ctxc_prepare (acct : LocalAccount) (chain_id : Z)
  : Prog (Outcome + Prepared) :=
  destination <- choose_destination acct ;;
  match destination with
  | inl o => ret (inl o)
  | inr (from_addr, to_addr) => read_amount_and_build chain_id from_addr to_addr
  end.

(** Lines 365-370: the estimated fee (the display conversions may
    raise). *)
Definition estimate_fee (tx : Tx) : result Z :=
  (if Dict.mem "gasPrice" tx then
     gas <- tx_int tx "gas" ;;
     gas_price <- tx_int tx "gasPrice" ;;
     _ <- W3.from_wei_gwei gas_price ;;
     Ok (gas * gas_price)
   else
     gas <- tx_int tx "gas" ;;
     max_fee <- tx_int tx "maxFeePerGas" ;;
     tip <- tx_int tx "maxPriorityFeePerGas" ;;
     _ <- W3.from_wei_gwei tip ;;
     Ok (gas * max_fee))%result.

(** Line 400: [getattr(.., None) or getattr(.., None)]. *)
Definition raw_of (signed : SignedTransaction) : option string :=
  match rawTransaction signed with
  | Some r => if PyStr.truthy r then Some r else raw_transaction signed
  | None => raw_transaction signed
  end.

(** Line 408: [except (ValueError, ContractLogicError, RuntimeError)]. *)
Definition caught_on_send (e : Exn) : bool :=
  match e with
  | ValueError | ContractLogicError | RuntimeError => true
  | _ => false
  end.

(** Line 395: the answer that lets the transfer go on. *)
Definition accepted (answer : string) : bool :=
  String.eqb (PyStr.lower (PyStr.strip answer)) "ya".

(** Lines 398-403, the body of the [try]. *)
Definition sign_and_send (acct : LocalAccount) (tx : Tx) : Prog string :=
  signed <- call (SignTransaction tx (key acct)) ;;
  match raw_of signed with
  | None => raise RuntimeError
  | Some raw => call (SendRawTransaction raw)
  end.

(** Lines 365-409.  The summary of lines 375-388 only prints values that
    are already computed (its conversions cannot raise below 10^1000018
    smallest units) and is left out. *)
Definition send_ctxc_submit (acct : LocalAccount) (p : Prepared)
  : Prog Outcome :=
  est_fee <- lift (estimate_fee (tx p)) ;;
  balance <- call (GetBalance (from_addr p)) ;;
  let total_needed := value_wei p + est_fee in
  if Z.of_N balance <? total_needed then ret InsufficientFunds
  else
    y <- call (Input PromptConfirm) ;;
    if negb (accepted y) then ret UserCancelled
    else
      sent <- try_ (sign_and_send acct (tx p)) ;;
      match sent with
      | Ok tx_hash => ret (Sent tx_hash)
      | Raise e => if caught_on_send e then ret (SendFailed e) else raise e
      end.

Definition send_ctxc (acct : LocalAccount) (chain_id : Z) : Prog Outcome :=
  prepared <- send_ctxc_prepare acct chain_id ;;
  match prepared with
  | inl o => ret o
  | inr p => send_ctxc_submit acct p
  end.

End Wallet.

(** ** A scripted environment, to run the programs on concrete inputs *)

Module Scenario.

Local Open Scope string_scope.

(** Stand-ins for the two cryptographic functions (the real ones are
    secp256k1 with keccak-256, and EIP-55): a key is 64 hex digits, its
    address the first 40 of them behind "0x"; an address passes when it
    is "0x" followed by 40 hex digits.  They only serve to instantiate the
    parametric statements at concrete inputs. *)
Definition is_hex (c : ascii) : bool :=
  let n := PyStr.code (PyStr.lower_char c) in
  (PyStr.is_digit c || (97 <=? n) && (n <=? 102))%nat.

Fixpoint all_hex (s : string) : bool :=
  match s with
  | EmptyString => true
  | String c s' => is_hex c && all_hex s'
  end.

Definition from_key (v : string) : result LocalAccount :=
  if (String.length v =? 64)%nat && all_hex v
  then Ok (mkAccount ("0x" ++ String.substring 0 40 v) v)
  else Raise ValueError.

Definition to_checksum_address (a : string) : result string :=
  if String.prefix "0x" a && (String.length a =? 42)%nat
     && all_hex (PyStr.drop 2 a)
  then Ok a
  else Raise ValueError.

(** A node that gives the same answer to every query of a kind, and a
    console that feeds the lines of [stdin] one by one. *)
Record Node : Type := mkNode {
  balance : result N;
  nonce : result N;
  base_fee : result (option N);
  priority_fee : result N;
  gas_price : result N;
  favorite : result (option string);
  signed : result SignedTransaction;
  tx_hash : result string
}.

Definition scripted (n : Node) : handler (list string) :=
  fun X e =>
    match e in Event X return list string -> result X * list string with
    | Input _ => fun stdin =>
        match stdin with
        | line :: rest => (Ok line, rest)
        | [] => (Raise EOFError, [])
        end
    | GetBalance _ => fun stdin => (balance n, stdin)
    | GetTransactionCount _ => fun stdin => (nonce n, stdin)
    | GetBlockLatest => fun stdin => (base_fee n, stdin)
    | MaxPriorityFee => fun stdin => (priority_fee n, stdin)
    | GasPrice => fun stdin => (gas_price n, stdin)
    | FavPick => fun stdin => (favorite n, stdin)
    | SignTransaction _ _ => fun stdin => (signed n, stdin)
    | SendRawTransaction _ => fun stdin => (tx_hash n, stdin)
    end.

Definition key_a : string :=
  "1111111111111111111111111111111111111111111111111111111111111111".
Definition key_b : string :=
  "2222222222222222222222222222222222222222222222222222222222222222".
Definition key_c : string :=
  "3333333333333333333333333333333333333333333333333333333333333333".

Definition account_a : LocalAccount :=
  mkAccount "0x1111111111111111111111111111111111111111" key_a.
Definition account_b : LocalAccount :=
  mkAccount "0x2222222222222222222222222222222222222222" key_b.
Definition account_c : LocalAccount :=
  mkAccount "0x3333333333333333333333333333333333333333" key_c.

Definition recipient : string := "0x4444444444444444444444444444444444444444".

(** A legacy-model node: no base fee, a gas price that makes the fee of a
    transfer about 0.15 units, a balance of one unit. *)
Definition legacy_node : Node :=
  mkNode (Ok 1000000000000000000%N) (Ok 7%N) (Ok None) (Raise NodeError)
         (Ok 7142857142858%N) (Ok None)
         (Ok (mkSigned (Some "f86b") None)) (Ok "9a3c").

(** A dynamic-model node: base fee 100 gwei, no priority-fee estimate. *)
Definition dynamic_node : Node :=
  mkNode (Ok 5000000000000000000%N) (Ok 7%N) (Ok (Some 100000000000%N))
         (Raise NodeError) (Ok 5000000000%N) (Ok None)
         (Ok (mkSigned None (Some "02f8")) ) (Ok "77aa").

(** A legacy-model node that suggests a gas price of 5 gwei. *)
Definition five_gwei_node : Node :=
  mkNode (Ok 1000000000000000000%N) (Ok 0%N) (Ok None) (Raise NodeError)
         (Ok 5000000000%N) (Ok None)
         (Ok (mkSigned (Some "f86b") None)) (Ok "9a3c").

(** Three credentials, one of them malformed. *)
Definition three_credentials : Env :=
  [("HOME", "/root"); ("CTXC_PK_bob", key_b); ("CTXC_PK_Carol", "not-a-key");
   ("CTXC_PK_alice", key_a)].

(** The legacy variable together with a variable named after the reserved
    name. *)
Definition reserved_name_twice : Env :=
  [("CTXC_PRIVATE_KEY", key_a); ("CTXC_PK_LEGACY", key_b)].

End Scenario.

(** The variables [load_accounts] looks at. *)
Definition credential_variable (kv : string * string) : bool :=
  String.eqb (fst kv) "CTXC_PRIVATE_KEY"
  || PyStr.startswith (fst kv) "CTXC_PK_".

(** ** Start-up: the endpoint and the chain id (lines 64-92) *)

(** [int(s)] for a string, and [str.isdigit], on the ASCII range. *)
Module PyInt.

Fixpoint all_digits (s : string) : bool :=
  match s with
  | EmptyString => true
  | String c s' => PyStr.is_digit c && all_digits s'
  end.

Definition isdigit (s : string) : bool := PyStr.truthy s && all_digits s.

(** The whitespace [int] skips around an ASCII literal: TAB..CR and
    SPACE (the separators FS..US, which [str.strip] removes, are not). *)
Definition is_space (c : ascii) : bool :=
  let n := PyStr.code c in
  ((9 <=? n) && (n <=? 13) || (n =? 32))%nat.

Fixpoint skip_spaces (s : string) : string :=
  match s with
  | EmptyString => EmptyString
  | String c s' => if is_space c then skip_spaces s' else s
  end.

(** The digits of a literal and what follows them: at least one digit,
    with single underscores allowed between two digits. *)
Fixpoint scan_digits (s : string) (after_digit : bool)
  : option (list ascii * string) :=
  match s with
  | EmptyString => if after_digit then Some ([], EmptyString) else None
  | String c s' =>
      if PyStr.is_digit c then
        match scan_digits s' true with
        | Some (ds, rest) => Some (c :: ds, rest)
        | None => None
        end
      else if after_digit then
        if Ascii.eqb c "_"%char then scan_digits s' false else Some ([], s)
      else None
  end.

(** Below this many digits the interpreter never applies its limit on
    conversions. *)
Definition MAX_STR_DIGITS_THRESHOLD : nat := 640.

(** [int(s)]: surrounding whitespace, a sign, the digits.  The interpreter
    refuses literals of more than [max_str_digits] digits
    ([sys.get_int_max_str_digits()], 4300 unless configured; 0 turns the
    limit off). *)
Definition of_string (max_str_digits : nat) (s : string) : result Z :=
  let '(neg, body) := Dec.split_sign (skip_spaces s) in
  match scan_digits body false with
  | Some (ds, rest) =>
      if PyStr.truthy (skip_spaces rest) then Raise ValueError
      else if ((MAX_STR_DIGITS_THRESHOLD <? List.length ds)
               && (0 <? max_str_digits)
               && (max_str_digits <? List.length ds))%nat
      then Raise ValueError
      else Ok (Dec.signed neg (Dec.digits_to_Z ds))
  | None => Raise ValueError
  end.

End PyInt.

Section Startup.

Local Open Scope string_scope.

Definition normalize_rpc (url : string) : string :=
  if negb (PyStr.startswith url "http://")
     && negb (PyStr.startswith url "https://")
  then "http://" ++ url
  else url.

(** Does a URL start with one of the two schemes? *)
Definition has_scheme (url : string) : bool :=
  PyStr.startswith url "http://" || PyStr.startswith url "https://".

(** How [load_web3] ends: with a client for an endpoint, or with
    [sys.exit(2)]. *)
Inductive Startup : Set :=
| Connected (rpc : string)
| Exit (code : Z).

(** Lines 69-77, over the environment as [load_dotenv] leaves it and the
    reachability of an endpoint ([w3.is_connected()]). *)
Definition load_web3 (env : Env) (is_connected : string -> bool) : Startup :=
  let rpc := match getenv env "CTXC_RPC_URL" with
             | Some url => url
             | None => "security.cortexlabs.ai:30088"
             end in
  let rpc := normalize_rpc rpc in
  if is_connected rpc then Connected rpc else Exit 2.

Variable max_str_digits : nat.

(** Lines 80-84: the chain id the environment asks for. *)
Definition env_chain (env : Env) : Z :=
  match getenv env "CTXC_CHAIN_ID" with
  | Some v =>
      if PyStr.truthy v then
        match PyInt.of_string max_str_digits v with
        | Ok n => n
        | Raise _ => 21
        end
      else 21
  | None => 21
  end.

(** Lines 79-92.  [chain_id] is the answer to [w3.eth.chain_id]; [warned]
    is the outcome of the [print] of line 88, which sits inside the [try]
    (its text has a character outside ASCII, which not every console
    encoding can write). *)
Definition enforced_chain_id (env : Env) (chain_id : result Z)
    (warned : result unit) : Z :=
  match chain_id with
  | Ok actual =>
      if negb (actual =? env_chain env)%Z then
        match warned with
        | Ok _ => actual
        | Raise _ => env_chain env
        end
      else actual
  | Raise _ => env_chain env
  end.

End Startup.

(** ** Balances of all accounts (lines 128-137) *)

Module Info.

(** The dictionary stored per account; [error] is [None] when the key is
    absent. *)
Record t : Set := make {
  address : string;
  wei : Z;
  ctxc : Dec.Decimal;
  error : option Exn
}.

End Info.

Definition is_balance_query (c : Call) : bool :=
  match projT2 c with
  | GetBalance _ => true
  | _ => false
  end.

Section Balances.

Variable to_checksum_address : string -> result string.

Local Open Scope prog_scope.

(** The body of the loop: the [try] and its [except]. *)
Definition balance_info (acct : LocalAccount) : Prog Info.t :=
  queried <- try_ (addr <- lift (to_checksum_address (address acct)) ;;
                   wei <- call (GetBalance addr) ;;
                   ctxc <- lift (from_wei (Z.of_N wei)) ;;
                   ret (Info.make addr (Z.of_N wei) ctxc None)) ;;
  ret (match queried with
       | Ok info => info
       | Raise e => Info.make (address acct) 0 (Dec.of_int 0) (Some e)
       end).

Fixpoint get_all_balances_from (items : Registry)
    (res : list (string * Info.t)) : Prog (list (string * Info.t)) :=
  match items with
  | [] => ret res
  | (name, acct) :: rest =>
      info <- balance_info acct ;;
      get_all_balances_from rest (Dict.set name info res)
  end.

Definition get_all_balances (accounts : Registry)
  : Prog (list (string * Info.t)) :=
  get_all_balances_from accounts [].

(** What an entry says about its account: without [error], the checksum
    address, the balance the node gave and its conversion; with [error],
    the address as derived and a zero balance. *)
Definition balance_entry (acct : LocalAccount) (info : Info.t) : Prop :=
  match Info.error info with
  | None =>
      to_checksum_address (address acct) = Ok (Info.address info) /\
      0 <= Info.wei info /\
      from_wei (Info.wei info) = Ok (Info.ctxc info)
  | Some _ =>
      Info.address info = address acct /\
      Info.wei info = 0 /\
      Info.ctxc info = Dec.of_int 0
  end.

End Balances.

(** ** The console and the address book

    The functions below read lines from the console and read and write the
    favourites file.  They are modelled by explicit state passing; output
    is display only and left out. *)

Module IO.

Section Monad.

Context {W : Type}.

(** A computation over a world [W] that returns or raises. *)
Definition t (A : Type) : Type := W -> result A * W.

Definition ret {A} (a : A) : t A := fun w => (Ok a, w).

Definition lift {A} (r : result A) : t A := fun w => (r, w).

Definition bind {A B} (m : t A) (f : A -> t B) : t B :=
  fun w =>
    let '(r, w1) := m w in
    match r with
    | Ok a => f a w1
    | Raise e => (Raise e, w1)
    end.

End Monad.

End IO.

Declare Scope io_scope.
Delimit Scope io_scope with io.
Notation "x <- m ;; k" := (IO.bind m (fun x => k))
  (at level 61, m at next level, right associativity) : io_scope.
Notation "m ;;; k" := (IO.bind m (fun _ => k))
  (at level 61, right associativity) : io_scope.

(** [input(...)]: the next line of the console, [EOFError] at its end. *)
Definition input_line (stdin : list string) : result string * list string :=
  match stdin with
  | line :: rest => (Ok line, rest)
  | [] => (Raise EOFError, [])
  end.

(** [names[idx]] when [0 <= idx < len(names)]. *)
Definition name_at (names : list string) (idx : Z) : option string :=
  if (0 <=? idx) && (idx <? Z.of_nat (List.length names))
  then nth_error names (Z.to_nat idx)
  else None.

(** ** Account selection (lines 172-191) *)

Section Selection.

Variable to_checksum_address : string -> result string.
Variable max_str_digits : nat.

Local Open Scope io_scope.

(** Lines 178-179: the listing computes the checksum form of every
    address. *)
Fixpoint show_accounts (accounts : Registry) : result unit :=
  match accounts with
  | [] => Ok tt
  | (_, acct) :: rest =>
      (_ <- to_checksum_address (address acct) ;; show_accounts rest)%result
  end.

Definition pick_account (accounts : Registry)
  : IO.t (W := list string) (option (string * LocalAccount)) :=
  match accounts with
  | [] => IO.ret None
  | _ =>
      let names := Dict.keys accounts in
      IO.lift (show_accounts accounts) ;;;
      line <- input_line ;;
      let raw := PyStr.strip line in
      if negb (PyStr.truthy raw) then IO.ret None
      else
        numbered <- IO.lift
          (if PyInt.isdigit raw then
             (n <- PyInt.of_string max_str_digits raw ;;
              Ok (name_at names (n - 1)))%result
           else Ok None) ;;
        match numbered with
        | Some n =>
            match Dict.get n accounts with
            | Some acct => IO.ret (Some (n, acct))
            | None => IO.lift (Raise KeyError)
            end
        | None =>
            match Dict.get raw accounts with
            | Some acct => IO.ret (Some (raw, acct))
            | None => IO.ret None
            end
        end
  end.

End Selection.

(** ** Favourites (lines 194-282) *)

Module Fav.

(** What the favourites file holds, as [fav_load] can tell: no file, a
    file that cannot be opened or parsed, JSON that is not an object, or
    an object. *)
Inductive File (J : Type) : Type :=
| Missing
| Unreadable
| NotADict
| Stored (data : list (string * J)).
Arguments Missing {J}.
Arguments Unreadable {J}.
Arguments NotADict {J}.
Arguments Stored {J} data.

(** The console, the file, and whether opening the file for writing
    fails. *)
Record World (J : Type) : Type := mkWorld {
  stdin : list string;
  file : File J;
  write_error : option Exn
}.
Arguments mkWorld {J}.
Arguments stdin {J}.
Arguments file {J}.
Arguments write_error {J}.

(** What [json.load] gives and [isinstance(data, dict)] lets through. *)
Definition content {J} (f : File J) : list (string * J) :=
  match f with
  | Stored data => data
  | _ => []
  end.

(** [del d[k]] for a key of [d]. *)
Fixpoint delete {V} (k : string) (d : list (string * V))
  : list (string * V) :=
  match d with
  | [] => []
  | (k', v) :: d' =>
      if String.eqb k k' then d' else (k', v) :: delete k d'
  end.

(** How [fav_add] and [fav_remove] end, by the message they print. *)
Inductive Added : Set :=
| EmptyName                                  (* "Nama tidak boleh kosong." *)
| BadAddress                                 (* "Alamat tidak valid." *)
| OverwriteDeclined                          (* "Dibatalkan." *)
| Saved (name checksum : string).            (* "Disimpan: ..." *)

Inductive Removed : Set :=
| NothingToRemove               (* "Tidak ada favorit untuk dihapus." *)
| Cancelled                     (* "Dibatalkan." *)
| InvalidChoice                 (* "Pilihan tidak valid." *)
| Deleted (target : string).    (* "Favorit '...' dihapus." *)

End Fav.

Section Favorites.

(** The values of the JSON object: strings when the program wrote them,
    anything when the file was edited by hand. *)
Variable J : Type.
Variable jstr : string -> J.
Variable to_checksum_address : string -> result string.
(** [Web3.to_checksum_address] on a value read from the file. *)
Variable to_checksum_json : J -> result string.
Variable max_str_digits : nat.

Local Open Scope io_scope.

Definition Favs : Type := list (string * J).

Definition input : IO.t (W := Fav.World J) string :=
  fun w =>
    let '(line, rest) := input_line (Fav.stdin w) in
    (line, Fav.mkWorld rest (Fav.file w) (Fav.write_error w)).

(** Lines 194-202. *)
Definition fav_load : IO.t (W := Fav.World J) Favs :=
  fun w => (Ok (Fav.content (Fav.file w)), w).

(** Lines 204-206: what is written is what the next [json.load] reads. *)
Definition fav_save (data : Favs) : IO.t (W := Fav.World J) unit :=
  fun w =>
    match Fav.write_error w with
    | Some e => (Raise e, w)
    | None => (Ok tt, Fav.mkWorld (Fav.stdin w) (Fav.Stored data) None)
    end.

(** Lines 220-237. *)
Definition fav_add : IO.t (W := Fav.World J) Fav.Added :=
  name_in <- input ;;
  let name := PyStr.strip name_in in
  if negb (PyStr.truthy name) then IO.ret Fav.EmptyName
  else
    addr_in <- input ;;
    match to_checksum_address (PyStr.strip addr_in) with
    | Raise _ => IO.ret Fav.BadAddress
    | Ok checksum =>
        favs <- fav_load ;;
        overwrite <-
          (if Dict.mem name favs then
             y <- input ;;
             IO.ret (String.eqb (PyStr.lower (PyStr.strip y)) "ya")
           else IO.ret true) ;;
        if negb overwrite then IO.ret Fav.OverwriteDeclined
        else
          fav_save (Dict.set name (jstr checksum) favs) ;;;
          IO.ret (Fav.Saved name checksum)
    end.

(** Lines 257-261: an empty name counts as no target. *)
Definition remove_target (favs : Favs) (target : option string)
  : IO.t (W := Fav.World J) Fav.Removed :=
  match target with
  | Some target =>
      if negb (PyStr.truthy target) then IO.ret Fav.InvalidChoice
      else
        fav_save (Fav.delete target favs) ;;;
        IO.ret (Fav.Deleted target)
  | None => IO.ret Fav.InvalidChoice
  end.

(** Lines 239-261. *)
Definition fav_remove : IO.t (W := Fav.World J) Fav.Removed :=
  favs <- fav_load ;;
  match favs with
  | [] => IO.ret Fav.NothingToRemove
  | _ =>
      let names := Dict.keys favs in
      choice_in <- input ;;
      let choice := PyStr.strip choice_in in
      if negb (PyStr.truthy choice) then IO.ret Fav.Cancelled
      else
        target <- IO.lift
          (if PyInt.isdigit choice then
             (n <- PyInt.of_string max_str_digits choice ;;
              Ok (name_at names (n - 1)))%result
           else if Dict.mem choice favs then Ok (Some choice)
           else Ok None) ;;
        remove_target favs target
  end.

(** [Web3.to_checksum_address(favs[name])] *)
Definition checksum_of (favs : Favs) (name : string) : result string :=
  match Dict.get name favs with
  | Some addr => to_checksum_json addr
  | None => Raise KeyError
  end.

(** Lines 263-282. *)
Definition fav_pick : IO.t (W := Fav.World J) (option string) :=
  favs <- fav_load ;;
  match favs with
  | [] => IO.ret None
  | _ =>
      let names := Dict.keys favs in
      raw_in <- input ;;
      let raw := PyStr.strip raw_in in
      if negb (PyStr.truthy raw) then IO.ret None
      else if PyInt.isdigit raw then
        n <- IO.lift (PyInt.of_string max_str_digits raw) ;;
        match name_at names (n - 1) with
        | Some name =>
            checksum <- IO.lift (checksum_of favs name) ;;
            IO.ret (Some checksum)
        | None => IO.ret None
        end
      else if Dict.mem raw favs then
        checksum <- IO.lift (checksum_of favs raw) ;;
        IO.ret (Some checksum)
      else IO.ret None
  end.

End Favorites.

(** Nodes that fail at one point of the pipeline. *)
Module Faults.

Import Scenario.
Local Open Scope string_scope.

(** The signer returns an object without a raw payload. *)
Definition no_raw_node : Node :=
  mkNode (Ok 1000000000000000000%N) (Ok 7%N) (Ok None) (Raise NodeError)
         (Ok 7142857142858%N) (Ok None)
         (Ok (mkSigned (Some "") None)) (Ok "9a3c").

(** The node rejects every broadcast with a [ValueError]. *)
Definition rejecting_node : Node :=
  mkNode (Ok 1000000000000000000%N) (Ok 7%N) (Ok None) (Raise NodeError)
         (Ok 7142857142858%N) (Ok None)
         (Ok (mkSigned (Some "f86b") None)) (Raise ValueError).

(** The node answers every balance query with an error. *)
Definition no_balance_node : Node :=
  mkNode (Raise NodeError) (Ok 7%N) (Ok None) (Raise NodeError)
         (Ok 7142857142858%N) (Ok None)
         (Ok (mkSigned (Some "f86b") None)) (Ok "9a3c").

(** The node cannot return the latest block. *)
Definition no_block_node : Node :=
  mkNode (Ok 1000000000000000000%N) (Ok 7%N) (Raise NodeError)
         (Ok 1000000000%N) (Ok 5000000000%N) (Ok None)
         (Ok (mkSigned (Some "f86b") None)) (Ok "9a3c").

End Faults.

(** Registries and address books to run the console functions on. *)
Module Samples.

Import Scenario.
Local Open Scope string_scope.

Definition two_accounts : Registry :=
  [("alice", account_a); ("bob", account_b)].

(** An account that bears a number as its name. *)
Definition numbered_accounts : Registry :=
  [("2", account_a); ("bob", account_b)].

Definition home : string := "0x5555555555555555555555555555555555555555".

Definition address_book : list (string * string) :=
  [("kantor", recipient); ("rumah", home)].

(** A console with the given lines, over a favourites file. *)
Definition desk (lines : list string) (file : Fav.File string)
  : Fav.World string :=
  Fav.mkWorld lines file None.

End Samples.

(** Programs that never perform a call of a given kind. *)
Fixpoint never {A} (P : Call -> bool) (p : Prog A) : Prop :=
  match p with
  | Ret _ => True
  | Vis e k => P (mkCall e) = false /\ forall r, never P (k r)
  end.

Definition quiet (P : Call -> bool) (tr : list Call) : bool :=
  forallb (fun c => negb (P c)) tr.

(** A postcondition on the result of a program, whatever the environment
    answers. *)
Fixpoint sat {A} (Q : result A -> Prop) (p : Prog A) : Prop :=
  match p with
  | Ret r => Q r
  | Vis e k => forall r, sat Q (k r)
  end.

(** What [build_tx] puts in a transaction as far as the fee goes: the gas
    limit, and either a gas price or the two dynamic fields. *)
Definition fee_shape (t : Tx) : Prop :=
  Dict.get "gas" t = Some (VInt GAS_LIMIT_TRANSFER) /\
  ((exists gas_price, Dict.get "gasPrice" t = Some (VInt gas_price)) \/
   (Dict.mem "gasPrice" t = false /\
    exists max_fee priority,
      Dict.get "maxFeePerGas" t = Some (VInt max_fee) /\
      Dict.get "maxPriorityFeePerGas" t = Some (VInt priority))).


(** * Properties *)

(** ** Running programs *)

Arguments W3.to_wei_gwei : simpl never.
Arguments two_gwei : simpl never.
Arguments to_wei : simpl never.
Arguments estimate_fee : simpl never.
Arguments parse_tip : simpl never.
Arguments PyStr.strip : simpl never.
Arguments accepted : simpl never.

Lemma run_bind {S A B} (h : handler S) (p : Prog A) (f : A -> Prog B) (s : S) :
  run h (pbind p f) s =
  let '(r, s1, tr1) := run h p s in
  match r with
  | Ok a => let '(r2, s2, tr2) := run h (f a) s1 in (r2, s2, tr1 ++ tr2)
  | Raise e => (Raise e, s1, tr1)
  end.
Proof.
  revert s; induction p as [r | X e k IH]; intros s; simpl.
  - destruct r as [a | e]; [ | reflexivity ].
    destruct (run h (f a) s) as [[r2 s2] tr2]; reflexivity.
  - destruct (h X e s) as [x s1].
    rewrite IH.
    destruct (run h (k x) s1) as [[r s2] tr].
    destruct r as [a | e'].
    + destruct (run h (f a) s2) as [[r2 s3] tr2]; reflexivity.
    + reflexivity.
Qed.

Lemma run_try {S A} (h : handler S) (p : Prog A) (s : S) :
  run h (try_ p) s = let '(r, s1, tr) := run h p s in (Ok r, s1, tr).
Proof.
  revert s; induction p as [r | X e k IH]; intros s; simpl.
  - reflexivity.
  - destruct (h X e s) as [x s1].
    rewrite IH.
    destruct (run h (k x) s1) as [[r s2] tr]; reflexivity.
Qed.

Lemma run_call {S X} (h : handler S) (e : Event X) (s : S) :
  run h (call e) s = (fst (h X e s), snd (h X e s), [mkCall e]).
Proof.
  unfold call; simpl. destruct (h X e s); reflexivity.
Qed.

Lemma run_lift {S A} (h : handler S) (r : result A) (s : S) :
  run h (lift r) s = (r, s, []).
Proof. reflexivity. Qed.

Lemma never_run {S A} (P : Call -> bool) (h : handler S) (p : Prog A) (s : S) :
  never P p -> quiet P (snd (run h p s)) = true.
Proof.
  revert s; induction p as [r | X e k IH]; intros s Hn; simpl.
  - reflexivity.
  - destruct Hn as [He Hk].
    destruct (h X e s) as [x s1].
    specialize (IH x s1 (Hk x)).
    destruct (run h (k x) s1) as [[r s2] tr]; simpl in *.
    unfold quiet; simpl. unfold quiet in IH. now rewrite He, IH.
Qed.

Lemma never_bind {A B} (P : Call -> bool) (p : Prog A) (f : A -> Prog B) :
  never P p -> (forall a, never P (f a)) -> never P (pbind p f).
Proof.
  intros Hp Hf; induction p as [r | X e k IH]; simpl.
  - destruct r; [ apply Hf | exact I ].
  - destruct Hp as [He Hk]. split; [ exact He | intros r; apply IH, Hk ].
Qed.

Lemma never_try {A} (P : Call -> bool) (p : Prog A) :
  never P p -> never P (try_ p).
Proof.
  intros Hp; induction p as [r | X e k IH]; simpl.
  - exact I.
  - destruct Hp as [He Hk]. split; [ exact He | intros r; apply IH, Hk ].
Qed.

Lemma never_call {X} (P : Call -> bool) (e : Event X) :
  P (mkCall e) = false -> never P (call e).
Proof. intros He; simpl; split; [ exact He | intros r; exact I ]. Qed.

Lemma quiet_app (P : Call -> bool) (l1 l2 : list Call) :
  quiet P (l1 ++ l2) = quiet P l1 && quiet P l2.
Proof. unfold quiet; apply forallb_app. Qed.

(** ** The library conversions on the values the code feeds them *)

Lemma two_gwei_value : two_gwei = Ok 2000000000.
Proof. vm_compute. reflexivity. Qed.

Lemma to_wei_gwei_minus_one :
  W3.to_wei_gwei (Dec.Finite true 1 0) = Raise ValueError.
Proof. vm_compute. reflexivity. Qed.

(** ** Fee selection *)

Section FeeSelection.

Context {S : Type} (h : handler S).
Variables (sender recipient : string) (value_wei nonce chain_id : Z).


(** The steps of [build_tx], run one by one. *)
Lemma run_latest_base_fee (s : S) :
  run h latest_base_fee s =
  (Ok (match fst (h _ GetBlockLatest s) with Ok b => b | Raise _ => None end),
   snd (h _ GetBlockLatest s), [mkCall GetBlockLatest]).
Proof.
  unfold latest_base_fee, call; simpl.
  destruct (h _ GetBlockLatest s) as [[b | e] s1]; reflexivity.
Qed.

Lemma run_choose_priority_auto (s : S) :
  run h (choose_priority None) s =
  (Ok (match fst (h _ MaxPriorityFee s) with
       | Ok p => Z.of_N p
       | Raise _ => 2000000000
       end),
   snd (h _ MaxPriorityFee s), [mkCall MaxPriorityFee]).
Proof.
  unfold choose_priority, call; simpl.
  destruct (h _ MaxPriorityFee s) as [[p | e] s1]; simpl.
  - reflexivity.
  - now rewrite two_gwei_value.
Qed.

Lemma run_choose_priority_explicit (tip : Dec.Decimal) (s : S) :
  run h (choose_priority (Some tip)) s = (W3.to_wei_gwei tip, s, []).
Proof. reflexivity. Qed.

Lemma run_legacy_gas_price (s : S) :
  run h legacy_gas_price s =
  (Ok (match fst (h _ GasPrice s) with
       | Ok g => Z.of_N g
       | Raise _ => 2000000000
       end),
   snd (h _ GasPrice s), [mkCall GasPrice]).
Proof.
  unfold legacy_gas_price, call; simpl.
  destruct (h _ GasPrice s) as [[g | e] s1]; simpl.
  - reflexivity.
  - now rewrite two_gwei_value.
Qed.

(** [build_tx] in terms of its three steps. *)
Lemma run_build_tx (tip : option Dec.Decimal) (s : S) :
  run h (build_tx sender recipient value_wei nonce chain_id tip) s =
  let '(base, s1, tr1) := run h latest_base_fee s in
  match base with
  | Raise e => (Raise e, s1, tr1)
  | Ok base_fee =>
      let '(prio, s2, tr2) := run h (choose_priority tip) s1 in
      match prio with
      | Raise e => (Raise e, s2, tr1 ++ tr2)
      | Ok priority =>
          match base_fee with
          | None =>
              let '(gp, s3, tr3) := run h legacy_gas_price s2 in
              match gp with
              | Raise e => (Raise e, s3, tr1 ++ tr2 ++ tr3)
              | Ok gas_price =>
                  (Ok ([("from", VStr sender); ("to", VStr recipient);
                        ("value", VInt value_wei); ("nonce", VInt nonce);
                        ("gas", VInt GAS_LIMIT_TRANSFER);
                        ("gasPrice", VInt gas_price);
                        ("chainId", VInt chain_id)]%string,
                       "legacy"%string), s3, tr1 ++ tr2 ++ tr3)
              end
          | Some b =>
              (Ok ([("from", VStr sender); ("to", VStr recipient);
                    ("value", VInt value_wei); ("nonce", VInt nonce);
                    ("gas", VInt GAS_LIMIT_TRANSFER);
                    ("maxFeePerGas", VInt (Z.of_N b * 2 + priority));
                    ("maxPriorityFeePerGas", VInt priority);
                    ("chainId", VInt chain_id)]%string,
                   "eip1559"%string), s2, tr1 ++ tr2)
          end
      end
  end.
Proof.
  unfold build_tx.
  rewrite run_bind.
  destruct (run h latest_base_fee s) as [[[base_fee | e] s1] tr1];
    [ | reflexivity ].
  rewrite run_bind.
  destruct (run h (choose_priority tip) s1) as [[[priority | e] s2] tr2];
    [ | reflexivity ].
  destruct base_fee as [b | ].
  - simpl. now rewrite app_nil_r.
  - rewrite run_bind.
    destruct (run h legacy_gas_price s2) as [[[gas_price | e] s3] tr3];
      simpl; [ now rewrite app_nil_r | reflexivity ].
Qed.

(** Without an explicit tip, or with one that converts, [build_tx]
    returns. *)
Lemma build_tx_returns (tip : option Dec.Decimal) (s : S) :
  (forall explicit, tip = Some explicit ->
     is_ok (W3.to_wei_gwei explicit) = true) ->
  exists t model s' tr, run h (build_tx sender recipient value_wei nonce chain_id tip) s = (Ok (t, model), s', tr).
Proof.
  intros Htip.
  rewrite run_build_tx, run_latest_base_fee.
  destruct tip as [explicit | ].
  - rewrite run_choose_priority_explicit.
    specialize (Htip explicit eq_refl).
    destruct (W3.to_wei_gwei explicit) as [p | e]; [ | discriminate ].
    destruct (fst (h _ GetBlockLatest s)) as [[b | ] | e].
    + eauto.
    + rewrite run_legacy_gas_price. eauto.
    + rewrite run_legacy_gas_price. eauto.
  - rewrite run_choose_priority_auto.
    destruct (fst (h _ GetBlockLatest s)) as [[b | ] | e].
    + eauto.
    + rewrite run_legacy_gas_price. eauto.
    + rewrite run_legacy_gas_price. eauto.
Qed.

(** C3.  A quote produced while the latest block exposes a base fee is a
    dynamic one: [maxFeePerGas] is twice the base fee plus the priority fee
    that [choose_priority] selected, [maxPriorityFeePerGas] is that priority
    fee, and the former is at least the latter. *)
Theorem dynamic_fee_quote_fields
    (tip : option Dec.Decimal) (s s' : S) (base_fee : N)
    (t : Tx) (model : string) (tr : list Call) :
  fst (h _ GetBlockLatest s) = Ok (Some base_fee) ->
  run h (build_tx sender recipient value_wei nonce chain_id tip) s = (Ok (t, model), s', tr) ->
  model = "eip1559"%string /\
  exists priority max_fee max_priority,
    fst (fst (run h (choose_priority tip) (snd (h _ GetBlockLatest s))))
      = Ok priority /\
    Dict.get "maxFeePerGas" t = Some (VInt max_fee) /\
    Dict.get "maxPriorityFeePerGas" t = Some (VInt max_priority) /\
    max_fee = 2 * Z.of_N base_fee + priority /\
    max_priority = priority /\
    max_fee >= max_priority.
Proof.
  intros Hblock Hrun.
  rewrite run_build_tx, run_latest_base_fee, Hblock in Hrun.
  destruct (run h (choose_priority tip) (snd (h _ GetBlockLatest s)))
    as [[[priority | e] s2] tr2]; [ | discriminate ].
  injection Hrun as <- <- <- <-.
  split; [ reflexivity | ].
  exists priority, (Z.of_N base_fee * 2 + priority), priority.
  repeat split; try reflexivity; lia.
Qed.



(** C8.  With the explicit tip [-1] gwei, [build_tx] raises [ValueError]
    whatever the node answers: the conversion of line 299 is outside every
    [try]. *)
Theorem build_tx_raises_on_negative_tip (s : S) :
  fst (fst (run h (build_tx sender recipient value_wei nonce chain_id
                     (Some (Dec.Finite true 1 0))) s)) = Raise ValueError.
Proof.
  rewrite run_build_tx, run_latest_base_fee, run_choose_priority_explicit.
  rewrite to_wei_gwei_minus_one.
  reflexivity.
Qed.

End FeeSelection.

(** ** Submission *)

Lemma sat_run {S A} (Q : result A -> Prop) (h : handler S) (p : Prog A) (s : S) :
  sat Q p -> Q (fst (fst (run h p s))).
Proof.
  revert s; induction p as [r | X e k IH]; intros s Hs; simpl in *.
  - exact Hs.
  - destruct (h X e s) as [x s1].
    specialize (IH x s1 (Hs x)).
    destruct (run h (k x) s1) as [[r s2] tr]; exact IH.
Qed.

Lemma sat_bind {A B} (R : result A -> Prop) (Q : result B -> Prop)
    (p : Prog A) (f : A -> Prog B) :
  sat R p ->
  (forall a, R (Ok a) -> sat Q (f a)) ->
  (forall e, R (Raise e) -> Q (Raise e)) ->
  sat Q (pbind p f).
Proof.
  intros Hp Hok Hraise; induction p as [r | X e k IH]; simpl in *.
  - destruct r; [ apply Hok | apply Hraise ]; exact Hp.
  - intros r; apply IH, Hp.
Qed.

Lemma sat_any {A} (Q : result A -> Prop) (p : Prog A) :
  (forall r, Q r) -> sat Q p.
Proof.
  intros HQ; induction p as [r | X e k IH]; simpl; [ apply HQ | intros r; apply IH ].
Qed.

Section Submission.

Variable to_checksum_address : string -> result string.
Context {S : Type} (h : handler S).
Variables (acct : LocalAccount) (chain_id : Z).

Lemma build_tx_never_commits a b v n c tip :
  never is_sign_or_broadcast (build_tx a b v n c tip).
Proof.
  unfold build_tx, latest_base_fee, choose_priority, legacy_gas_price.
  apply never_bind.
  { apply never_bind; [ apply never_try, never_call; reflexivity | ].
    intros latest; exact I. }
  intros base_fee. apply never_bind.
  { destruct tip as [explicit | ]; [ exact I | ].
    apply never_bind; [ apply never_try, never_call; reflexivity | ].
    intros [p | e]; exact I. }
  intros priority. destruct base_fee as [b0 | ]; [ exact I | ].
  apply never_bind; [ | intros gas_price; exact I ].
  apply never_bind; [ apply never_try, never_call; reflexivity | ].
  intros [g | e]; exact I.
Qed.

Lemma build_tx_fee_shape a b v n c tip :
  sat (fun r => match r with Ok (t, _) => fee_shape t | Raise _ => True end)
      (build_tx a b v n c tip).
Proof.
  unfold build_tx.
  pose (T := fun (A : Type) (_ : result A) => True).
  apply (sat_bind (T _)); [ apply sat_any; easy | intros base_fee _ | easy ].
  apply (sat_bind (T _)); [ apply sat_any; easy | intros priority _ | easy ].
  destruct base_fee as [b0 | ].
  - simpl. split; [ reflexivity | right ].
    split; [ reflexivity | eexists _, _; split; reflexivity ].
  - apply (sat_bind (T _)); [ apply sat_any; easy | intros gas_price _ | easy ].
    simpl. split; [ reflexivity | left; eexists; reflexivity ].
Qed.

Lemma prepare_never_commits :
  never is_sign_or_broadcast (send_ctxc_prepare to_checksum_address acct chain_id).
Proof.
  unfold send_ctxc_prepare, choose_destination, read_amount_and_build.
  apply never_bind.
  - apply never_bind; [ exact I | intros sender ].
    apply never_bind; [ apply never_try, never_call; reflexivity | intros _ ].
    apply never_bind; [ apply never_call; reflexivity | intros choice_in ].
    destruct (String.eqb _ "1").
    + apply never_bind; [ apply never_call; reflexivity | ].
      intros [a | ]; [ destruct (PyStr.truthy a) | ]; exact I.
    + apply never_bind; [ apply never_call; reflexivity | intros to_in ].
      destruct (to_checksum_address (PyStr.strip to_in)); exact I.
  - intros [o | [sender recipient]]; [ exact I | ].
    apply never_bind; [ apply never_call; reflexivity | intros amount_in ].
    destruct (to_wei (PyStr.strip amount_in)) as [value | e]; [ | exact I ].
    apply never_bind; [ apply never_call; reflexivity | intros tip_in ].
    apply never_bind; [ apply never_call; reflexivity | intros nonce ].
    apply never_bind; [ apply build_tx_never_commits | intros built; exact I ].
Qed.

Lemma prepare_fee_shape :
  sat (fun r => match r with
                | Ok (inr p) => fee_shape (tx p)
                | _ => True
                end)
      (send_ctxc_prepare to_checksum_address acct chain_id).
Proof.
  unfold send_ctxc_prepare, read_amount_and_build.
  pose (T := fun (A : Type) (_ : result A) => True).
  apply (sat_bind (T _));
    [ apply sat_any; easy | intros [o | [sender recipient]] _ | easy ].
  - exact I.
  - apply (sat_bind (T _)); [ apply sat_any; easy | intros amount_in _ | easy ].
    destruct (to_wei (PyStr.strip amount_in)) as [value | e]; [ | exact I ].
    apply (sat_bind (T _)); [ apply sat_any; easy | intros tip_in _ | easy ].
    apply (sat_bind (T _)); [ apply sat_any; easy | intros nonce _ | easy ].
    eapply sat_bind; [ apply build_tx_fee_shape | | easy ].
    intros [t model] Hshape; exact Hshape.
Qed.


(** The fee of lines 365-370 on a transaction that [build_tx] made: the gas
    limit times the gas price, or times [maxFeePerGas] when there is no gas
    price. *)
Lemma estimate_fee_formula (t : Tx) (est_fee : Z) :
  fee_shape t ->
  estimate_fee t = Ok est_fee ->
  (exists gas_price,
      Dict.get "gasPrice" t = Some (VInt gas_price) /\
      est_fee = GAS_LIMIT_TRANSFER * gas_price) \/
  (Dict.mem "gasPrice" t = false /\
   exists max_fee,
     Dict.get "maxFeePerGas" t = Some (VInt max_fee) /\
     est_fee = GAS_LIMIT_TRANSFER * max_fee).
Proof.
  intros [Hgas [[g Hg] | [Hno [m [pr [Hm Hpr]]]]]] Hfee;
    unfold estimate_fee, Dict.mem, tx_int in *.
  - rewrite Hg, Hgas in Hfee; simpl in Hfee.
    destruct (W3.from_wei_gwei g); simpl in Hfee; [ | discriminate ].
    injection Hfee as <-. left; eauto.
  - destruct (Dict.get "gasPrice" t); [ discriminate | ].
    rewrite Hgas, Hm, Hpr in Hfee; simpl in Hfee.
    destruct (W3.from_wei_gwei pr); simpl in Hfee; [ | discriminate ].
    injection Hfee as <-. right; eauto.
Qed.



End Submission.

(** ** Dictionaries *)

Section DictFacts.

Context {V : Type}.
Implicit Types (d : list (string * V)) (k n : string) (v a : V).

Lemma get_set_same k v d : Dict.get k (Dict.set k v d) = Some v.
Proof.
  induction d as [ | [k' v'] d IH]; simpl.
  - now rewrite String.eqb_refl.
  - destruct (String.eqb k k') eqn:E; simpl; rewrite E; [ reflexivity | exact IH ].
Qed.

Lemma get_set_other k n v d :
  k <> n -> Dict.get n (Dict.set k v d) = Dict.get n d.
Proof.
  intros Hne; induction d as [ | [k' v'] d IH]; simpl.
  - apply String.eqb_neq in Hne. now rewrite String.eqb_sym, Hne.
  - destruct (String.eqb k k') eqn:E; simpl.
    + apply String.eqb_eq in E; subst k'.
      apply String.eqb_neq in Hne. now rewrite String.eqb_sym, Hne.
    + now rewrite IH.
Qed.

Lemma get_in n a d : Dict.get n d = Some a -> In (n, a) d.
Proof.
  induction d as [ | [k' v'] d IH]; simpl; [ discriminate | ].
  destruct (String.eqb n k') eqn:E.
  - apply String.eqb_eq in E; subst k'. intros [= ->]; now left.
  - intros H; right; auto.
Qed.

Lemma in_keys n a d : In (n, a) d -> In n (Dict.keys d).
Proof. intros H; apply (in_map fst) in H; exact H. Qed.

Lemma in_get n a d : NoDup (Dict.keys d) -> In (n, a) d -> Dict.get n d = Some a.
Proof.
  induction d as [ | [k' v'] d IH]; simpl; [ easy | ].
  intros Hnd [Heq | Hin].
  - injection Heq as -> ->. now rewrite String.eqb_refl.
  - inversion Hnd as [ | ? ? Hnotin Hnd']; subst.
    destruct (String.eqb n k') eqn:E.
    + apply String.eqb_eq in E; subst k'.
      exfalso; apply Hnotin; eapply in_keys; eassumption.
    + auto.
Qed.

Lemma get_none n d : Dict.get n d = None <-> ~ In n (Dict.keys d).
Proof.
  induction d as [ | [k' v'] d IH]; simpl.
  - tauto.
  - destruct (String.eqb n k') eqn:E.
    + apply String.eqb_eq in E; subst k'. split; [ discriminate | tauto ].
    + apply String.eqb_neq in E. rewrite IH. split.
      * intros H [Heq | Hin]; [ congruence | tauto ].
      * tauto.
Qed.

Lemma set_fresh k v d : ~ In k (Dict.keys d) -> Dict.set k v d = d ++ [(k, v)].
Proof.
  induction d as [ | [k' v'] d IH]; simpl; intros Hn; [ reflexivity | ].
  destruct (String.eqb k k') eqn:E.
  - apply String.eqb_eq in E; subst k'. tauto.
  - rewrite IH; [ reflexivity | tauto ].
Qed.

Lemma keys_set k v d :
  Dict.keys (Dict.set k v d) =
  if Dict.mem k d then Dict.keys d else Dict.keys d ++ [k].
Proof.
  unfold Dict.mem.
  induction d as [ | [k' v'] d IH]; simpl; [ reflexivity | ].
  destruct (String.eqb k k') eqn:E; simpl.
  - reflexivity.
  - rewrite IH. destruct (Dict.get k d); reflexivity.
Qed.

Lemma nodup_keys_set k v d :
  NoDup (Dict.keys d) -> NoDup (Dict.keys (Dict.set k v d)).
Proof.
  intros Hnd. rewrite keys_set. unfold Dict.mem.
  destruct (Dict.get k d) eqn:E; [ exact Hnd | ].
  apply get_none in E.
  apply NoDup_rev in Hnd.
  rewrite <- (rev_involutive (Dict.keys d ++ [k])).
  apply NoDup_rev. rewrite rev_app_distr; simpl.
  constructor; [ now rewrite <- in_rev | exact Hnd ].
Qed.

Lemma insert_perm (x : string * V) d : Permutation (Dict.insert x d) (x :: d).
Proof.
  induction d as [ | y d IH]; simpl; [ reflexivity | ].
  destruct (Dict.key_le x y); [ reflexivity | ].
  rewrite IH. apply perm_swap.
Qed.

Lemma sorted_items_perm d : Permutation (Dict.sorted_items d) d.
Proof.
  induction d as [ | x d IH]; simpl; [ reflexivity | ].
  rewrite insert_perm. now constructor.
Qed.

Lemma key_le_total (x y : string * V) :
  Dict.key_le x y = false -> Dict.key_le y x = true.
Proof.
  unfold Dict.key_le; intros H.
  destruct (String.leb_total (PyStr.lower (fst x)) (PyStr.lower (fst y)));
    congruence.
Qed.

Lemma insert_sorted (x : string * V) d :
  Sorted Dict.ordered d -> Sorted Dict.ordered (Dict.insert x d).
Proof.
  induction d as [ | y d IH]; simpl; intros Hs.
  - repeat constructor.
  - destruct (Dict.key_le x y) eqn:E.
    + constructor; [ exact Hs | constructor; exact E ].
    + inversion Hs as [ | ? ? Hs' Hhd]; subst.
      constructor; [ apply IH, Hs' | ].
      destruct d as [ | z d]; simpl.
      * constructor. now apply key_le_total.
      * destruct (Dict.key_le x z); constructor.
        -- now apply key_le_total.
        -- now inversion Hhd.
Qed.

Lemma sorted_items_locally_sorted d : Sorted Dict.ordered (Dict.sorted_items d).
Proof.
  induction d as [ | x d IH]; simpl; [ constructor | now apply insert_sorted ].
Qed.

Lemma compare_not_gt_trans (s1 s2 s3 : string) :
  String.compare s1 s2 <> Gt -> String.compare s2 s3 <> Gt ->
  String.compare s1 s3 <> Gt.
Proof.
  revert s2 s3; induction s1 as [ | c1 s1 IH]; intros [ | c2 s2] [ | c3 s3];
    simpl; try congruence.
  unfold Ascii.compare. intros H12 H23.
  destruct (N.compare_spec (N_of_ascii c1) (N_of_ascii c2)) as [E12 | L12 | G12];
    [ | | congruence ];
    (destruct (N.compare_spec (N_of_ascii c2) (N_of_ascii c3))
       as [E23 | L23 | G23]; [ | | congruence ]).
  - rewrite E12, E23, N.compare_refl. eapply IH; eassumption.
  - rewrite E12. apply N.compare_lt_iff in L23. rewrite L23. simpl. discriminate.
  - rewrite <- E23. apply N.compare_lt_iff in L12. rewrite L12. simpl. discriminate.
  - assert (L13 : (N_of_ascii c1 < N_of_ascii c3)%N) by lia.
    apply N.compare_lt_iff in L13. rewrite L13. simpl. discriminate.
Qed.

Lemma leb_trans (s1 s2 s3 : string) :
  String.leb s1 s2 = true -> String.leb s2 s3 = true -> String.leb s1 s3 = true.
Proof.
  unfold String.leb. intros H12 H23.
  pose proof (compare_not_gt_trans s1 s2 s3) as Ht.
  destruct (String.compare s1 s2); try discriminate;
    destruct (String.compare s2 s3); try discriminate;
    destruct (String.compare s1 s3); try reflexivity;
    exfalso; apply Ht; congruence.
Qed.

Lemma ordered_transitive : Relations_1.Transitive (@Dict.ordered V).
Proof.
  intros x y z Hxy Hyz. unfold Dict.ordered, Dict.key_le in *.
  eapply leb_trans; eassumption.
Qed.

Lemma sorted_items_sorted d : StronglySorted Dict.ordered (Dict.sorted_items d).
Proof.
  apply Sorted_StronglySorted;
    [ exact ordered_transitive | apply sorted_items_locally_sorted ].
Qed.

Lemma get_perm n d d' :
  NoDup (Dict.keys d) -> Permutation d d' -> Dict.get n d' = Dict.get n d.
Proof.
  intros Hnd Hp.
  assert (Hnd' : NoDup (Dict.keys d')).
  { eapply Permutation_NoDup; [ apply Permutation_map, Hp | exact Hnd ]. }
  destruct (Dict.get n d) as [a | ] eqn:E.
  - apply in_get; [ exact Hnd' | ].
    eapply Permutation_in; [ exact Hp | now apply get_in ].
  - apply get_none. apply get_none in E. intros Hin; apply E.
    eapply Permutation_in; [ apply Permutation_map, Permutation_sym, Hp | exact Hin ].
Qed.

Lemma single_entry n a d :
  NoDup (Dict.keys d) -> Dict.get n d = Some a ->
  List.length (filter (fun x => String.eqb (fst x) n) d) = 1%nat.
Proof.
  induction d as [ | [k' v'] d IH]; simpl; [ discriminate | ].
  intros Hnd Hget. inversion Hnd as [ | ? ? Hnotin Hnd']; subst.
  destruct (String.eqb n k') eqn:E.
  - apply String.eqb_eq in E; subst k'. rewrite String.eqb_refl; simpl.
    f_equal.
    assert (Hnone : forall l : list (string * V), ~ In n (Dict.keys l) ->
              filter (fun x => String.eqb (fst x) n) l = []).
    { induction l as [ | [k2 v2] l IHl]; simpl; intros Hn; [ reflexivity | ].
      destruct (String.eqb k2 n) eqn:E2.
      - apply String.eqb_eq in E2; subst; tauto.
      - apply IHl; tauto. }
    now rewrite Hnone.
  - rewrite String.eqb_sym, E. now apply IH.
Qed.

End DictFacts.

(** ** Key registry *)

Section RegistryFacts.

Variable from_key : string -> result LocalAccount.
Variable to_checksum_address : string -> result string.

Local Notation "'deriveK'" := (derive from_key to_checksum_address).
Local Notation "'registerK'" := (register from_key to_checksum_address).
Local Notation "'loadK'" := (load_accounts from_key to_checksum_address).
Local Notation "'failuresK'" := (failures from_key to_checksum_address).
Local Notation "'valid_namesK'" := (valid_names from_key to_checksum_address).
Local Notation "'passes_asK'" := (passes_as from_key to_checksum_address).

(** The loop of [load_accounts] is [register] over the candidates. *)
Lemma load_legacy_register (env : Env) (st : LoadState) :
  load_legacy from_key to_checksum_address env st
  = fold_left registerK (legacy_candidate env) st.
Proof.
  unfold load_legacy, legacy_candidate. destruct st as [accounts warnings].
  destruct (getenv env "CTXC_PRIVATE_KEY") as [legacy | ]; [ | reflexivity ].
  destruct (PyStr.truthy legacy); reflexivity.
Qed.

Lemma load_named_register (st : LoadState) (kv : string * string) :
  load_named from_key to_checksum_address st kv
  = fold_left registerK (named_candidate kv) st.
Proof.
  unfold load_named, named_candidate.
  destruct st as [accounts warnings], kv as [k v].
  destruct (PyStr.startswith k "CTXC_PK_"); simpl; [ | reflexivity ].
  destruct (PyStr.truthy (credential_name k)); simpl; [ | reflexivity ].
  destruct (PyStr.truthy v); reflexivity.
Qed.

Lemma fold_load_named (env : Env) (st : LoadState) :
  fold_left (load_named from_key to_checksum_address) env st
  = fold_left registerK (flat_map named_candidate env) st.
Proof.
  revert st; induction env as [ | kv env IH]; intros st; simpl.
  - reflexivity.
  - rewrite fold_left_app, IH, load_named_register. reflexivity.
Qed.

Lemma load_accounts_candidates (env : Env) :
  loadK env =
  (Dict.sorted_items (fst (fold_left registerK (candidates env) ([], []))),
   snd (fold_left registerK (candidates env) ([], []))).
Proof.
  unfold load_accounts, candidates.
  rewrite fold_load_named, load_legacy_register, <- fold_left_app.
  destruct (fold_left registerK _ _); reflexivity.
Qed.

(** Invariants of the loop. *)
Lemma register_warnings (cs : list Candidate) (st : LoadState) :
  snd (fold_left registerK cs st) = snd st ++ failuresK cs.
Proof.
  revert st; induction cs as [ | [[k name] v] cs IH]; intros [accounts warnings]; simpl.
  - now rewrite app_nil_r.
  - rewrite IH. unfold register.
    destruct (deriveK v); simpl; [ reflexivity | now rewrite <- app_assoc ].
Qed.

Lemma register_nodup (cs : list Candidate) (st : LoadState) :
  NoDup (Dict.keys (fst st)) ->
  NoDup (Dict.keys (fst (fold_left registerK cs st))).
Proof.
  revert st; induction cs as [ | [[k name] v] cs IH]; intros [accounts warnings]; simpl.
  - trivial.
  - intros Hnd. apply IH. unfold register.
    destruct (deriveK v); simpl; [ now apply nodup_keys_set | exact Hnd ].
Qed.

(** An entry comes from the initial registry or from a candidate that
    passes under its name. *)
Lemma register_sound (cs : list Candidate) (st : LoadState) (n : string)
    (a : LocalAccount) :
  Dict.get n (fst (fold_left registerK cs st)) = Some a ->
  Dict.get n (fst st) = Some a \/
  exists k v, In (k, n, v) cs /\ deriveK v = Ok a.
Proof.
  revert st; induction cs as [ | [[k name] v] cs IH]; intros [accounts warnings]; simpl.
  - now left.
  - intros H. apply IH in H. destruct H as [H | [k' [v' [Hin Hd]]]].
    + unfold register in H.
      destruct (deriveK v) as [acct | e] eqn:E; simpl in H; [ | now left ].
      destruct (String.eqb name n) eqn:En.
      * apply String.eqb_eq in En; subst name.
        rewrite get_set_same in H. injection H as ->.
        right; exists k, v; split; [ now left | exact E ].
      * apply String.eqb_neq in En. rewrite get_set_other in H by exact En.
        now left.
    + right; exists k', v'; split; [ now right | exact Hd ].
Qed.

(** A candidate that passes is registered under its name, unless a later
    one passes under the same name. *)
Lemma register_last (cs1 cs2 : list Candidate) (st : LoadState)
    (k n v : string) (a : LocalAccount) :
  deriveK v = Ok a ->
  forallb (fun c => negb (passes_asK n c)) cs2 = true ->
  Dict.get n (fst (fold_left registerK (cs1 ++ (k, n, v) :: cs2) st)) = Some a.
Proof.
  intros Hd Hlater.
  rewrite fold_left_app; simpl.
  generalize (fold_left registerK cs1 st); intros [accounts warnings].
  assert (Hstart : Dict.get n (fst (registerK (accounts, warnings) (k, n, v))) = Some a).
  { unfold register. rewrite Hd. apply get_set_same. }
  revert Hstart. generalize (registerK (accounts, warnings) (k, n, v)).
  induction cs2 as [ | [[k2 n2] v2] cs2 IH]; intros st2 Hstart; simpl.
  - exact Hstart.
  - simpl in Hlater. apply andb_prop in Hlater as [Hc Hrest].
    apply IH; [ exact Hrest | ].
    destruct st2 as [acc2 w2]. unfold register.
    unfold passes_as in Hc.
    destruct (deriveK v2) as [a2 | e2]; simpl in *; [ | exact Hstart ].
    rewrite andb_true_r in Hc. apply negb_true_iff, String.eqb_neq in Hc.
    rewrite get_set_other by exact Hc. exact Hstart.
Qed.

(** With distinct names among the candidates that pass, the registry has
    one entry for each of them. *)
Lemma register_keys_distinct (cs : list Candidate) (st : LoadState) :
  NoDup (Dict.keys (fst st) ++ valid_namesK cs) ->
  Dict.keys (fst (fold_left registerK cs st))
  = Dict.keys (fst st) ++ valid_namesK cs.
Proof.
  revert st; induction cs as [ | [[k name] v] cs IH]; intros [accounts warnings]; simpl.
  - intros _. now rewrite app_nil_r.
  - unfold valid_names; simpl. fold (valid_namesK cs). intros Hnd.
    destruct (deriveK v) as [acct | e]; simpl in *.
    + assert (Hfresh : ~ In name (Dict.keys accounts)).
      { intros Hin. apply NoDup_remove_2 in Hnd. apply Hnd.
        apply in_or_app; now left. }
      rewrite IH; simpl; rewrite set_fresh by exact Hfresh.
      * unfold Dict.keys. rewrite map_app, <- app_assoc. reflexivity.
      * unfold Dict.keys. rewrite map_app, <- app_assoc. exact Hnd.
    + apply IH. exact Hnd.
Qed.

(** If every candidate named [n] passes with the account [a] and there is
    one, the entry under [n] holds [a]. *)
Lemma register_agree (cs : list Candidate) (st : LoadState) (n : string)
    (a : LocalAccount) :
  (forall k v, In (k, n, v) cs -> deriveK v = Ok a) ->
  (Dict.get n (fst st) = Some a \/ exists k v, In (k, n, v) cs) ->
  Dict.get n (fst (fold_left registerK cs st)) = Some a.
Proof.
  revert st; induction cs as [ | [[k' n'] v'] cs IH]; intros [accounts warnings] Hall Hex; simpl.
  - destruct Hex as [H | [k [v []]]]; exact H.
  - apply IH.
    + intros k v Hin; apply (Hall k v); now right.
    + unfold register.
      destruct (String.eqb n' n) eqn:En.
      * apply String.eqb_eq in En; subst n'.
        rewrite (Hall k' v') by now left.
        left; apply get_set_same.
      * apply String.eqb_neq in En.
        destruct Hex as [H | [k [v [Heq | Hin]]]].
        -- left. destruct (deriveK v'); simpl;
             [ now rewrite get_set_other | exact H ].
        -- congruence.
        -- right; eauto.
Qed.


Lemma credential_name_legacy : credential_name "CTXC_PK_LEGACY" = "LEGACY"%string.
Proof. vm_compute. reflexivity. Qed.


End RegistryFacts.

(** ** Decimal arithmetic *)

Section Digits.

Local Open Scope Z_scope.

Lemma gtb_false (a b : Z) : a <= b -> (a >? b) = false.
Proof. intros H. rewrite Z.gtb_ltb. apply Z.ltb_ge. exact H. Qed.

Lemma pow10_pos (k : Z) : 0 <= k -> 0 < 10 ^ k.
Proof. intros Hk; apply Z.pow_pos_nonneg; lia. Qed.

Lemma pow10_split (a b : Z) : 0 <= a -> 0 <= b -> 10 ^ (a + b) = 10 ^ a * 10 ^ b.
Proof. intros; apply Z.pow_add_r; assumption. Qed.

Lemma ndigits_fuel_bounds (fuel : nat) (n : Z) :
  0 < n -> n < 2 ^ Z.of_nat fuel ->
  1 <= Dec.ndigits_fuel fuel n /\
  10 ^ (Dec.ndigits_fuel fuel n - 1) <= n < 10 ^ Dec.ndigits_fuel fuel n.
Proof.
  revert n; induction fuel as [ | f IH]; intros n Hpos Hlt.
  - simpl in Hlt. lia.
  - cbn [Dec.ndigits_fuel].
    destruct (n <? 10) eqn:E.
    + apply Z.ltb_lt in E. simpl. lia.
    + apply Z.ltb_ge in E.
      assert (Hq : 0 < n / 10) by (apply Z.div_str_pos; lia).
      assert (Hq2 : n / 10 < 2 ^ Z.of_nat f).
      { apply Z.div_lt_upper_bound; [ lia | ].
        rewrite Nat2Z.inj_succ, Z.pow_succ_r in Hlt by lia.
        assert (0 < 2 ^ Z.of_nat f) by (apply Z.pow_pos_nonneg; lia). lia. }
      destruct (IH (n / 10) Hq Hq2) as [H1 [Hlo Hhi]].
      set (d := Dec.ndigits_fuel f (n / 10)) in *.
      replace (1 + d - 1) with (Z.succ (d - 1)) by lia.
      replace (1 + d) with (Z.succ d) by lia.
      rewrite !Z.pow_succ_r by lia.
      pose proof (Z.div_mod n 10 ltac:(lia)) as Hdm.
      pose proof (Z.mod_pos_bound n 10 ltac:(lia)) as Hmb.
      lia.
Qed.

Lemma ndigits_bounds (n : Z) :
  0 < n -> 1 <= Dec.ndigits n /\ 10 ^ (Dec.ndigits n - 1) <= n < 10 ^ Dec.ndigits n.
Proof.
  intros Hpos. unfold Dec.ndigits. apply ndigits_fuel_bounds; [ exact Hpos | ].
  pose proof (Z.log2_spec n Hpos) as [_ Hhi].
  pose proof (Z.log2_nonneg n) as Hnn.
  rewrite Nat2Z.inj_succ, Z2Nat.id by exact Hnn. exact Hhi.
Qed.

Lemma ndigits_unique (n k : Z) :
  0 < n -> 10 ^ (k - 1) <= n < 10 ^ k -> Dec.ndigits n = k.
Proof.
  intros Hpos [Hlo Hhi].
  destruct (ndigits_bounds n Hpos) as [H1 [Hlo' Hhi']].
  assert (Hk : 1 <= k).
  { destruct (Z_lt_le_dec k 1) as [Hlt | ]; [ | assumption ].
    exfalso. assert (10 ^ k <= 10 ^ 0).
    { destruct (Z_lt_le_dec k 0) as [Hneg | Hnn].
      - rewrite Z.pow_neg_r by exact Hneg. simpl; lia.
      - apply Z.pow_le_mono_r; lia. }
    simpl in *. lia. }
  assert (Hlt1 : 10 ^ (Dec.ndigits n - 1) < 10 ^ k) by lia.
  assert (Hlt2 : 10 ^ (k - 1) < 10 ^ Dec.ndigits n) by lia.
  apply Z.pow_lt_mono_r_iff in Hlt1; [ | lia | lia ].
  apply Z.pow_lt_mono_r_iff in Hlt2; [ | lia | lia ].
  lia.
Qed.

Lemma ndigits_scale (c j : Z) :
  0 < c -> 0 <= j -> Dec.ndigits (c * 10 ^ j) = Dec.ndigits c + j.
Proof.
  intros Hc Hj.
  destruct (ndigits_bounds c Hc) as [H1 [Hlo Hhi]].
  pose proof (pow10_pos j Hj) as Hp.
  apply ndigits_unique; [ nia | ].
  replace (Dec.ndigits c + j - 1) with ((Dec.ndigits c - 1) + j) by lia.
  rewrite !pow10_split by lia. nia.
Qed.

Lemma ndigits_below (n k : Z) : 0 < n -> n < 10 ^ k -> Dec.ndigits n <= k.
Proof.
  intros Hpos Hlt.
  destruct (ndigits_bounds n Hpos) as [H1 [Hlo _]].
  assert (H : 10 ^ (Dec.ndigits n - 1) < 10 ^ k) by lia.
  destruct (Z_lt_le_dec k 0) as [Hneg | Hnn].
  - rewrite Z.pow_neg_r in Hlt by exact Hneg. lia.
  - apply Z.pow_lt_mono_r_iff in H; lia.
Qed.

Lemma ndigits_ten18 : Dec.ndigits (10 ^ 18) = 19.
Proof. vm_compute. reflexivity. Qed.

(** A multiple of [10^k] loses nothing when its [k] low digits go. *)
Lemma round_half_even_exact (c k : Z) :
  0 <= k -> (c mod 10 ^ k = 0) -> Dec.round_half_even c k = false.
Proof.
  intros Hk Hmod. unfold Dec.round_half_even. rewrite Hmod.
  pose proof (pow10_pos k Hk) as Hp.
  rewrite (gtb_false (2 * 0) (10 ^ k)) by lia.
  replace (2 * 0 =? 10 ^ k) with false by (symmetry; apply Z.eqb_neq; lia).
  reflexivity.
Qed.

(** [_fix] keeps the value when only zeros fall off the coefficient. *)
Lemma fix_at_exact (p : Z) (s : bool) (c e : Z) :
  0 < p -> 0 < c ->
  Dec.ndigits c + e - p <= Dec.Emax - p + 1 ->
  Dec.Emin - p + 1 <= Dec.ndigits c + e - p ->
  c mod 10 ^ Z.max 0 (Dec.ndigits c - p) = 0 ->
  Dec.fix_at p s c e =
  Ok (Dec.Finite s (c / 10 ^ Z.max 0 (Dec.ndigits c - p))
        (e + Z.max 0 (Dec.ndigits c - p))).
Proof.
  intros Hp Hc Hover Hsub Hzeros.
  unfold Dec.fix_at.
  replace (c =? 0) with false by (symmetry; apply Z.eqb_neq; lia).
  set (nd := Dec.ndigits c) in *.
  rewrite (gtb_false (nd + e - p) (Dec.Emax - p + 1)) by lia.
  replace (nd + e - p <? Dec.Emin - p + 1) with false
    by (symmetry; apply Z.ltb_ge; lia).
  destruct (e <? nd + e - p) eqn:E.
  - apply Z.ltb_lt in E.
    replace (nd + e - (nd + e - p)) with p by lia.
    replace (p <? 0) with false by (symmetry; apply Z.ltb_ge; lia).
    fold nd.
    replace (Z.max 0 (nd - p)) with (nd - p) in * by lia.
    rewrite round_half_even_exact by (lia || assumption).
    rewrite (gtb_false (nd + e - p) (Dec.Emax - p + 1)) by lia.
    replace (e + (nd - p)) with (nd + e - p) by lia. reflexivity.
  - apply Z.ltb_ge in E.
    replace (Z.max 0 (nd - p)) with 0 by lia.
    rewrite Z.pow_0_r, Z.div_1_r, Z.add_0_r. reflexivity.
Qed.

(** [_fix] returns as long as the adjusted exponent is below [Emax]. *)
Lemma fix_at_returns (p : Z) (s : bool) (c e : Z) :
  0 < p -> 0 <= c ->
  Dec.ndigits c + e - p < Dec.Emax - p + 1 ->
  exists c' e', Dec.fix_at p s c e = Ok (Dec.Finite s c' e') /\ 0 <= c'.
Proof.
  intros Hp Hc Hover.
  unfold Dec.fix_at.
  destruct (c =? 0); [ eexists _, _; split; [ reflexivity | lia ] | ].
  set (nd := Dec.ndigits c) in *.
  rewrite (gtb_false (nd + e - p) (Dec.Emax - p + 1)) by lia.
  set (exp_min := if nd + e - p <? Dec.Emin - p + 1 then Dec.Emin - p + 1
                  else nd + e - p).
  assert (Hem : exp_min < Dec.Emax - p + 1).
  { unfold exp_min, Dec.Emin, Dec.Emax in *.
    destruct (nd + e - p <? -999999 - p + 1); lia. }
  destruct (e <? exp_min); [ | eexists _, _; split; [ reflexivity | lia ] ].
  set (c1 := if nd + e - exp_min <? 0 then 1 else c).
  assert (Hc1 : 0 <= c1) by (unfold c1; destruct (nd + e - exp_min <? 0); lia).
  set (k := Dec.ndigits c1 - (if nd + e - exp_min <? 0 then 0 else nd + e - exp_min)).
  assert (Hq : 0 <= c1 / 10 ^ k).
  { destruct (Z_lt_le_dec k 0) as [Hneg | Hnn].
    - rewrite Z.pow_neg_r by exact Hneg. rewrite Z.div_0_r. lia.
    - apply Z.div_pos; [ exact Hc1 | now apply pow10_pos ]. }
  destruct (Dec.round_half_even c1 k).
  - destruct (Dec.ndigits (c1 / 10 ^ k + 1) >? p).
    + rewrite (gtb_false (exp_min + 1) (Dec.Emax - p + 1)) by lia.
      eexists _, _; split; [ reflexivity | ].
      apply Z.div_pos; lia.
    + rewrite (gtb_false (exp_min) (Dec.Emax - p + 1)) by lia.
      eexists _, _; split; [ reflexivity | lia ].
  - rewrite (gtb_false (exp_min) (Dec.Emax - p + 1)) by lia.
    eexists _, _; split; [ reflexivity | exact Hq ].
Qed.

Lemma pow10_cancel (a b k : Z) : 0 <= k -> a * 10 ^ k = b * 10 ^ k -> a = b.
Proof.
  intros Hk H. pose proof (pow10_pos k Hk).
  apply Z.mul_cancel_r in H; lia.
Qed.

Lemma div_eucl_exact (q b : Z) : 0 < b -> Z.div_eucl (q * b) b = (q, 0).
Proof.
  intros Hb.
  pose proof (Z.div_mul q b ltac:(lia)) as Hd.
  pose proof (Z.mod_mul q b ltac:(lia)) as Hm.
  unfold Z.div, Z.modulo in Hd, Hm.
  destruct (Z.div_eucl (q * b) b) as [q' r']. now subst.
Qed.

Lemma strip_zeros_spec (n : nat) (coeff exp : Z) :
  0 < coeff ->
  exists j,
    0 <= j /\
    fst (Dec.strip_zeros n coeff exp) * 10 ^ j = coeff /\
    snd (Dec.strip_zeros n coeff exp) = exp + j /\
    0 < fst (Dec.strip_zeros n coeff exp).
Proof.
  revert coeff exp; induction n as [ | n IH]; intros coeff exp Hpos; simpl.
  - exists 0. rewrite Z.pow_0_r. lia.
  - destruct (coeff mod 10 =? 0) eqn:E.
    + apply Z.eqb_eq in E.
      pose proof (Z.div_mod coeff 10 ltac:(lia)) as Hdm.
      assert (Hq : 0 < coeff / 10) by lia.
      destruct (IH (coeff / 10) (exp + 1) Hq) as [j [Hj [Hval [Hexp Hfst]]]].
      exists (j + 1). rewrite pow10_split, Z.pow_1_r by lia.
      split; [ lia | ]. split; [ | split; [ lia | exact Hfst ] ].
      rewrite Z.mul_assoc, Hval. lia.
    + exists 0. rewrite Z.pow_0_r. simpl. lia.
Qed.

(** The product of line 59 is exact for a coefficient of at most 50 digits
    and at most 18 fractional digits. *)
Lemma to_wei_dec_exact (s : bool) (c e : Z) :
  0 < c -> c < 10 ^ 50 -> -18 <= e -> e <= 999932 ->
  to_wei_dec (Dec.Finite s c e) = Ok (Dec.signed s (c * 10 ^ (e + 18))).
Proof.
  intros Hc Hlt Hlo Hhi.
  pose proof (ndigits_below c 50 Hc Hlt) as Hnd.
  destruct (ndigits_bounds c Hc) as [Hnd1 _].
  assert (Hscale : Dec.ndigits (c * 10 ^ 18) = Dec.ndigits c + 18)
    by (apply ndigits_scale; lia).
  set (nd := Dec.ndigits c) in *.
  set (k := Z.max 0 (nd + 18 - 50)).
  assert (Hk : 0 <= k <= 18) by lia.
  assert (Hsplit : c * 10 ^ 18 = c * 10 ^ (18 - k) * 10 ^ k).
  { rewrite <- Z.mul_assoc, <- pow10_split by lia. f_equal; f_equal; lia. }
  unfold to_wei_dec, Dec.mul, Dec.mul_at, Dec.TEN18.
  rewrite xorb_false_r, Z.add_0_r.
  rewrite fix_at_exact; unfold Dec.prec, Dec.Emax, Dec.Emin; rewrite ?Hscale;
    fold k; try lia.
  - cbn [rbind Dec.to_int].
    rewrite Hsplit, Z.div_mul by (pose proof (pow10_pos k); lia).
    assert (Hm : (if e + k >=? 0
                  then c * 10 ^ (18 - k) * 10 ^ (e + k)
                  else c * 10 ^ (18 - k) / 10 ^ (- (e + k)))
                 = c * 10 ^ (e + 18)).
    { destruct (e + k >=? 0) eqn:E.
      - apply Z.geb_le in E.
        rewrite <- Z.mul_assoc, <- pow10_split by lia.
        replace (18 - k + (e + k)) with (e + 18) by lia. reflexivity.
      - rewrite Z.geb_leb in E. apply Z.leb_gt in E.
        replace (18 - k) with ((e + 18) + - (e + k)) by lia.
        rewrite pow10_split, Z.mul_assoc by lia.
        apply Z.div_mul. pose proof (pow10_pos (- (e + k))); lia. }
    rewrite Hm. reflexivity.
  - rewrite Hsplit. apply Z.mod_mul. pose proof (pow10_pos k); lia.
Qed.

(** The quotient of line 62 is exact for such a value. *)
Lemma from_wei_exact (c e : Z) :
  0 < c -> c < 10 ^ 50 -> -18 <= e -> e <= 999932 ->
  exists cf ef u,
    from_wei (c * 10 ^ (e + 18)) = Ok (Dec.Finite false cf ef) /\
    0 <= u /\
    cf * 10 ^ u = c * 10 ^ (52 - Dec.ndigits c) /\
    ef + (52 - Dec.ndigits c) = e + u.
Proof.
  intros Hc Hlt Hlo Hhi.
  pose proof (ndigits_below c 50 Hc Hlt) as Hnd.
  destruct (ndigits_bounds c Hc) as [Hnd1 _].
  pose proof (pow10_pos (e + 18) ltac:(lia)) as Hp18.
  assert (HW : 0 < c * 10 ^ (e + 18)) by nia.
  assert (HndW : Dec.ndigits (c * 10 ^ (e + 18)) = Dec.ndigits c + (e + 18))
    by (apply ndigits_scale; lia).
  set (nd := Dec.ndigits c) in *.
  set (t := 52 - nd). assert (Ht : 2 <= t) by lia.
  unfold from_wei, Dec.of_int, Dec.div, Dec.TEN18.
  replace (c * 10 ^ (e + 18) <? 0) with false by (symmetry; apply Z.ltb_ge; lia).
  rewrite Z.abs_eq by lia. cbn [xorb].
  replace (10 ^ 18 =? 0) with false by reflexivity.
  replace (c * 10 ^ (e + 18) =? 0) with false by (symmetry; apply Z.eqb_neq; lia).
  rewrite ndigits_ten18, HndW. unfold Dec.prec.
  replace (19 - (nd + (e + 18)) + 50 + 1) with (t - e) by lia.
  replace (0 - 0 - (t - e)) with (e - t) by lia.
  assert (Hdiv :
    (if t - e >=? 0
     then Z.div_eucl (c * 10 ^ (e + 18) * 10 ^ (t - e)) (10 ^ 18)
     else Z.div_eucl (c * 10 ^ (e + 18)) (10 ^ 18 * 10 ^ (- (t - e))))
    = (c * 10 ^ t, 0)).
  { destruct (t - e >=? 0) eqn:E.
    - apply Z.geb_le in E.
      replace (c * 10 ^ (e + 18) * 10 ^ (t - e)) with (c * 10 ^ t * 10 ^ 18).
      + apply div_eucl_exact. reflexivity.
      + rewrite <- !Z.mul_assoc, <- !pow10_split by lia. f_equal; f_equal; lia.
    - rewrite Z.geb_leb in E. apply Z.leb_gt in E.
      rewrite <- pow10_split by lia.
      replace (c * 10 ^ (e + 18)) with (c * 10 ^ t * 10 ^ (18 + - (t - e))).
      + apply div_eucl_exact. apply pow10_pos; lia.
      + rewrite <- !Z.mul_assoc, <- !pow10_split by lia. f_equal; f_equal; lia. }
  rewrite Hdiv. cbn [Z.eqb].
  pose proof (pow10_pos t ltac:(lia)) as Hpt.
  destruct (strip_zeros_spec (Z.to_nat (0 - 0 - (e - t))) (c * 10 ^ t) (e - t)
              ltac:(nia)) as [j [Hj [Hval [Hexp Hfst]]]].
  destruct (Dec.strip_zeros (Z.to_nat (0 - 0 - (e - t))) (c * 10 ^ t) (e - t))
    as [coeff' exp']; simpl in Hval, Hexp, Hfst.
  assert (Hnd' : Dec.ndigits coeff' = 52 - j).
  { assert (H : Dec.ndigits (coeff' * 10 ^ j) = Dec.ndigits (c * 10 ^ t))
      by now rewrite Hval.
    rewrite !ndigits_scale in H by lia. lia. }
  set (k := Z.max 0 (52 - j - 50)).
  assert (Hkz : coeff' mod 10 ^ k = 0).
  { destruct (Z_le_gt_dec 2 j) as [Hbig | Hsmall].
    - replace k with 0 by lia. rewrite Z.pow_0_r. apply Z.mod_1_r.
    - assert (Hc' : coeff' = c * 10 ^ (t - j)).
      { apply (pow10_cancel _ _ j Hj).
        rewrite Hval, <- Z.mul_assoc, <- pow10_split by lia.
        f_equal; f_equal; lia. }
      rewrite Hc'. replace (t - j) with ((t - j - k) + k) by lia.
      rewrite pow10_split, Z.mul_assoc by lia.
      apply Z.mod_mul. pose proof (pow10_pos k); lia. }
  unfold Dec.fix_.
  rewrite fix_at_exact; unfold Dec.prec, Dec.Emax, Dec.Emin; rewrite ?Hnd';
    fold k; try lia; try exact Hkz.
  exists (coeff' / 10 ^ k), (exp' + k), (j + k).
  split; [ reflexivity | ].
  split; [ lia | ].
  split; [ | subst exp' t; lia ].
  pose proof (pow10_pos k ltac:(lia)) as Hpk.
  pose proof (Z.div_mod coeff' (10 ^ k) ltac:(lia)) as Hdm.
  rewrite Hkz, Z.add_0_r in Hdm.
  rewrite Z.add_comm, pow10_split, Z.mul_assoc by lia.
  rewrite (Z.mul_comm (coeff' / 10 ^ k)), <- Hdm. exact Hval.
Qed.

(** Two finite values with the same sign are equal when their coefficients
    agree after alignment. *)
Lemma eq_aligned (s : bool) (c1 e1 c2 e2 u t : Z) :
  0 <= u -> 0 <= t ->
  c1 * 10 ^ u = c2 * 10 ^ t ->
  e1 + t = e2 + u ->
  Dec.eq (Dec.Finite s c1 e1) (Dec.Finite s c2 e2) = Ok true.
Proof.
  intros Hu Ht Hval Hexp.
  unfold Dec.eq. f_equal. apply Z.eqb_eq.
  set (m := Z.min e1 e2).
  assert (Hm : 0 <= m - (e1 - u)) by lia.
  apply (pow10_cancel _ _ (m - (e1 - u)) Hm).
  assert (H1 : forall c, Dec.signed s c * 10 ^ (e1 - m) * 10 ^ (m - (e1 - u))
                         = Dec.signed s (c * 10 ^ u)).
  { intros c. rewrite <- Z.mul_assoc, <- pow10_split by lia.
    replace (e1 - m + (m - (e1 - u))) with u by lia.
    unfold Dec.signed; destruct s; lia. }
  assert (H2 : forall c, Dec.signed s c * 10 ^ (e2 - m) * 10 ^ (m - (e1 - u))
                         = Dec.signed s (c * 10 ^ t)).
  { intros c. rewrite <- Z.mul_assoc, <- pow10_split by lia.
    replace (e2 - m + (m - (e1 - u))) with t by lia.
    unfold Dec.signed; destruct s; lia. }
  rewrite H1, H2, Hval. reflexivity.
Qed.

(** C4, as the code has it.  A non-negative amount written with at most 50
    digits, at most 18 of them after the point, converts to the integer
    [c * 10^(e+18)]; converting that back gives a Decimal equal to the
    amount. *)
Theorem round_trip_exact_when_representable (c e : Z) :
  0 <= c -> c < 10 ^ 50 -> -18 <= e -> e <= 999932 ->
  exists wei back,
    to_wei_dec (Dec.Finite false c e) = Ok wei /\
    wei = c * 10 ^ (e + 18) /\
    from_wei wei = Ok back /\
    Dec.eq back (Dec.Finite false c e) = Ok true.
Proof.
  intros Hc Hlt Hlo Hhi.
  destruct (Z.eq_dec c 0) as [-> | Hnz].
  - exists 0, (Dec.Finite false 0 0).
    split; [ | split; [ | split ] ].
    + unfold to_wei_dec, Dec.mul, Dec.mul_at, Dec.TEN18, Dec.fix_at.
      cbn [xorb Z.mul Z.eqb rbind Dec.to_int].
      destruct (_ >=? 0); reflexivity.
    + lia.
    + reflexivity.
    + apply (eq_aligned false 0 0 0 e (Z.max (- e) 0) (Z.max e 0)); lia.
  - assert (Hpos : 0 < c) by lia.
    destruct (from_wei_exact c e Hpos Hlt Hlo Hhi)
      as [cf [ef [u [Hback [Hu [Hval Hexp]]]]]].
    exists (c * 10 ^ (e + 18)), (Dec.Finite false cf ef).
    split; [ | split; [ | split ] ].
    + apply (to_wei_dec_exact false c e); assumption.
    + reflexivity.
    + exact Hback.
    + pose proof (ndigits_below c 50 Hpos Hlt).
      apply (eq_aligned false cf ef c e u (52 - Dec.ndigits c)); lia.
Qed.

(** *** The numeric-string syntax yields non-negative coefficients *)

Lemma span_digits_all (s : string) :
  Forall (fun c => PyStr.is_digit c = true) (fst (Dec.span_digits s)).
Proof.
  induction s as [ | c s IH]; simpl; [ constructor | ].
  destruct (PyStr.is_digit c) eqn:E; [ | constructor ].
  destruct (Dec.span_digits s) as [ds rest]; simpl in *.
  constructor; assumption.
Qed.

Lemma digit_val_nonneg (c : ascii) : PyStr.is_digit c = true -> 0 <= Dec.digit_val c.
Proof.
  unfold PyStr.is_digit, Dec.digit_val. intros H.
  apply andb_prop in H as [H _]. apply Nat.leb_le in H. lia.
Qed.

Lemma digits_to_Z_nonneg (ds : list ascii) :
  Forall (fun c => PyStr.is_digit c = true) ds -> 0 <= Dec.digits_to_Z ds.
Proof.
  unfold Dec.digits_to_Z. intros H.
  assert (Hgen : forall acc, 0 <= acc ->
            0 <= fold_left (fun acc d => 10 * acc + Dec.digit_val d) ds acc).
  { induction H as [ | d ds Hd _ IH]; intros acc Hacc; cbn [fold_left].
    - exact Hacc.
    - apply IH. pose proof (digit_val_nonneg d Hd). lia. }
  apply Hgen. lia.
Qed.

Lemma parse_special_not_finite (sign : bool) (s : string) (sg : bool) (c e : Z) :
  Dec.parse_special sign s <> Ok (Dec.Finite sg c e).
Proof.
  unfold Dec.parse_special.
  destruct (_ || _); [ discriminate | ].
  destruct (String.prefix "nan" _).
  - destruct (Dec.span_digits _) as [ds [ | ? ?]]; discriminate.
  - destruct (String.prefix "snan" _); [ | discriminate ].
    destruct (Dec.span_digits _) as [ds [ | ? ?]]; discriminate.
Qed.

Lemma of_string_coef_nonneg (v : string) (sg : bool) (c e : Z) :
  Dec.of_string v = Ok (Dec.Finite sg c e) -> 0 <= c.
Proof.
  unfold Dec.of_string.
  destruct (Dec.split_sign _) as [sign s1].
  pose proof (span_digits_all s1) as Hint.
  destruct (Dec.span_digits s1) as [intpart s2]; simpl in Hint.
  assert (Hfrac : forall fracpart s3,
            match s2 with
            | String "."%char r => Dec.span_digits r
            | _ => ([], s2)
            end = (fracpart, s3) ->
            Forall (fun c => PyStr.is_digit c = true) fracpart).
  { intros fracpart s3 H.
    assert (Hcases : (fracpart, s3) = ([], s2) \/
                     exists r, (fracpart, s3) = Dec.span_digits r).
    { destruct s2 as [ | a r]; [ left; congruence | ].
      destruct (Ascii.eqb a "."%char) eqn:Ea.
      - apply Ascii.eqb_eq in Ea; subst a. right; exists r; congruence.
      - left. destruct a as [[] [] [] [] [] [] [] []]; try congruence;
          discriminate. }
    destruct Hcases as [Hc | [r Hc]].
    - injection Hc as -> _. constructor.
    - pose proof (span_digits_all r) as Hr. rewrite <- Hc in Hr. exact Hr. }
  destruct (match s2 with
            | String "."%char r => Dec.span_digits r
            | _ => ([], s2)
            end) as [fracpart s3].
  specialize (Hfrac fracpart s3 eq_refl).
  assert (Hall : Forall (fun c => PyStr.is_digit c = true) (intpart ++ fracpart))
    by (apply Forall_app; split; assumption).
  destruct intpart as [ | i0 intpart].
  - destruct fracpart as [ | f0 fracpart].
    + intros H. exfalso. eapply parse_special_not_finite; exact H.
    + destruct (Dec.parse_exponent s3); [ | discriminate ].
      intros [= <- <- <-]. now apply digits_to_Z_nonneg.
  - destruct (Dec.parse_exponent s3); [ | discriminate ].
    intros [= <- <- <-]. now apply digits_to_Z_nonneg.
Qed.

Lemma to_int_sign (s : bool) (c e : Z) :
  0 <= c ->
  exists n, Dec.to_int (Dec.Finite s c e) = Ok n /\ (if s then n <= 0 else 0 <= n).
Proof.
  intros Hc. unfold Dec.to_int.
  assert (Hm : 0 <= (if e >=? 0 then c * 10 ^ e else c / 10 ^ (- e))).
  { destruct (e >=? 0) eqn:E.
    - apply Z.geb_le in E. pose proof (pow10_pos e E). nia.
    - rewrite Z.geb_leb in E. apply Z.leb_gt in E.
      apply Z.div_pos; [ exact Hc | apply pow10_pos; lia ]. }
  eexists; split; [ reflexivity | ].
  destruct s; lia.
Qed.

(** [to_wei] on a finite amount of either sign. *)
Lemma to_wei_dec_returns (s : bool) (c e : Z) :
  0 <= c -> Dec.ndigits c + e + 18 <= Dec.Emax ->
  exists n, to_wei_dec (Dec.Finite s c e) = Ok n /\ (if s then n <= 0 else 0 <= n).
Proof.
  intros Hc Hrange.
  unfold to_wei_dec, Dec.mul, Dec.mul_at, Dec.TEN18.
  rewrite xorb_false_r, Z.add_0_r.
  destruct (fix_at_returns Dec.prec s (c * 10 ^ 18) e) as [c' [e' [Hfix Hc']]].
  - reflexivity.
  - lia.
  - destruct (Z.eq_dec c 0) as [-> | Hnz].
    + change (Dec.ndigits (0 * 10 ^ 18)) with 1.
      change (Dec.ndigits 0) with 1 in Hrange. unfold Dec.prec. lia.
    + rewrite ndigits_scale by lia. unfold Dec.prec. lia.
  - rewrite Hfix. cbn [rbind]. now apply to_int_sign.
Qed.


(** [w3.to_wei(tip, "gwei")] on a positive tip with at most 9 fractional
    digits is the tip times [10^9], as long as that fits 256 bits. *)
Lemma to_wei_gwei_scales (c e : Z) :
  0 < c -> -9 <= e -> c * 10 ^ (e + 9) <= W3.MAX_WEI ->
  W3.to_wei_gwei (Dec.Finite false c e) = Ok (c * 10 ^ (e + 9)).
Proof.
  intros Hc He Hmax.
  pose proof (pow10_pos (e + 9) ltac:(lia)) as Hp.
  assert (Hmax78 : W3.MAX_WEI < 10 ^ 78) by (vm_compute; reflexivity).
  assert (Hc78 : c < 10 ^ 78) by nia.
  pose proof (ndigits_below c 78 Hc Hc78) as Hnd.
  destruct (ndigits_bounds c Hc) as [Hnd1 _].
  assert (Hscale : Dec.ndigits (c * 10 ^ 9) = Dec.ndigits c + 9)
    by (apply ndigits_scale; lia).
  assert (He77 : e + 9 <= 77).
  { destruct (Z_le_gt_dec (e + 9) 77) as [ | Hbig ]; [ assumption | exfalso ].
    assert (10 ^ 78 <= 10 ^ (e + 9)) by (apply Z.pow_le_mono_r; lia). nia. }
  unfold W3.to_wei_gwei.
  replace (c =? 0) with false by (symmetry; apply Z.eqb_neq; lia).
  unfold Dec.mul_at. rewrite xorb_false_r, Z.add_0_r.
  rewrite fix_at_exact; unfold Dec.Emax, Dec.Emin; rewrite ?Hscale; try lia.
  - replace (Z.max 0 (Dec.ndigits c + 9 - 999)) with 0 by lia.
    rewrite Z.pow_0_r, Z.div_1_r, Z.add_0_r. cbn [rbind].
    unfold W3.lt_int, W3.gt_int, W3.MIN_WEI, Dec.to_int. cbn [Dec.signed].
    destruct (e >=? 0) eqn:E.
    + apply Z.geb_le in E.
      assert (Hv : c * 10 ^ 9 * 10 ^ e = c * 10 ^ (e + 9)).
      { rewrite <- Z.mul_assoc, <- pow10_split by lia.
        replace (9 + e) with (e + 9) by lia. reflexivity. }
      rewrite Hv.
      replace (c * 10 ^ (e + 9) <? 0) with false by (symmetry; apply Z.ltb_ge; lia).
      rewrite gtb_false by exact Hmax. reflexivity.
    + rewrite Z.geb_leb in E. apply Z.leb_gt in E.
      pose proof (pow10_pos (- e) ltac:(lia)) as Hpe.
      assert (Hv : c * 10 ^ 9 = c * 10 ^ (e + 9) * 10 ^ (- e)).
      { rewrite <- Z.mul_assoc, <- pow10_split by lia.
        replace (e + 9 + - e) with 9 by lia. reflexivity. }
      replace (c * 10 ^ 9 <? 0 * 10 ^ (- e)) with false
        by (symmetry; apply Z.ltb_ge; nia).
      rewrite gtb_false by (rewrite Hv; nia).
      cbn [orb]. rewrite Hv, Z.div_mul by lia. reflexivity.
  - replace (Z.max 0 (Dec.ndigits c + 9 - 999)) with 0 by lia.
    rewrite Z.pow_0_r. apply Z.mod_1_r.
Qed.

End Digits.

(** * The statements at concrete inputs *)

Section Scenarios.

Import Scenario.
Local Open Scope string_scope.



(** Base fee 100 gwei, no explicit tip, no estimate from the node: the
    quote is dynamic with a priority fee of 2 gwei. *)
Lemma dynamic_quote_scenario :
  exists t,
    fst (fst (run (scripted dynamic_node)
                (build_tx (address account_a) recipient 1 7 21 None) []))
    = Ok (t, "eip1559") /\
    Dict.get "maxFeePerGas" t = Some (VInt 202000000000) /\
    Dict.get "maxPriorityFeePerGas" t = Some (VInt 2000000000).
Proof.
  pose (t := [("from", VStr (address account_a)); ("to", VStr recipient);
              ("value", VInt 1); ("nonce", VInt 7); ("gas", VInt 21000);
              ("maxFeePerGas", VInt 202000000000);
              ("maxPriorityFeePerGas", VInt 2000000000); ("chainId", VInt 21)]).
  exists t. split; [ vm_compute; reflexivity | ].
  destruct (dynamic_fee_quote_fields (scripted dynamic_node)
              (address account_a) recipient 1 7 21 None [] []
              100000000000%N t
              "eip1559" [mkCall GetBlockLatest; mkCall MaxPriorityFee]
              eq_refl)
    as [_ [priority [max_fee [max_priority [Hp [Hmf [Hmp [E1 [E2 _]]]]]]]]].
  - vm_compute. reflexivity.
  - vm_compute in Hp. injection Hp as <-.
    rewrite Hmf, Hmp, E2, E1. split; reflexivity.
Defined.


(** An explicit tip of 1.5 gwei is carried as 1500000000 smallest units. *)
Example explicit_priority_scenario :
  fst (fst (run (scripted dynamic_node)
              (build_tx (address account_a) recipient 1 7 21
                 (Some (Dec.Finite false 15 (-1)))) []))
  = Ok ([("from", VStr (address account_a)); ("to", VStr recipient);
         ("value", VInt 1); ("nonce", VInt 7); ("gas", VInt 21000);
         ("maxFeePerGas", VInt 201500000000);
         ("maxPriorityFeePerGas", VInt 1500000000); ("chainId", VInt 21)],
        "eip1559").
Proof. vm_compute. reflexivity. Qed.


Example legacy_quote_gas_price :
  fst (fst (run (scripted five_gwei_node)
              (build_tx (address account_a) recipient 1 0 21 None) []))
  = Ok ([("from", VStr (address account_a)); ("to", VStr recipient);
         ("value", VInt 1); ("nonce", VInt 0); ("gas", VInt 21000);
         ("gasPrice", VInt 5000000000); ("chainId", VInt 21)], "legacy").
Proof. vm_compute. reflexivity. Qed.

(** An amount below one smallest unit does not survive the round trip. *)
Lemma round_trip_loses_sub_wei_amount :
  exists wei back,
    Dec.of_string "0.0000000000000000001" = Ok (Dec.Finite false 1 (-19)) /\
    to_wei "0.0000000000000000001" = Ok wei /\
    from_wei wei = Ok back /\
    Dec.eq back (Dec.Finite false 1 (-19)) = Ok false.
Proof.
  exists 0, (Dec.Finite false 0 0).
  repeat split; vm_compute; reflexivity.
Qed.

(** Neither does an amount of more than 50 significant digits. *)
Example round_trip_loses_51st_digit :
  exists wei back,
    to_wei_dec (Dec.Finite false (10 ^ 50 + 1) 0) = Ok wei /\
    from_wei wei = Ok back /\
    Dec.eq back (Dec.Finite false (10 ^ 50 + 1) 0) = Ok false.
Proof.
  exists (10 ^ 68), (Dec.Finite false (10 ^ 49) 1).
  repeat split; vm_compute; reflexivity.
Qed.

(** The amount 1.000000005 converts to 1000000005000000000 and back. *)
Lemma round_trip_scenario :
  exists wei back,
    to_wei_dec (Dec.Finite false 1000000005 (-9)) = Ok wei /\
    wei = 1000000005 * 10 ^ (-9 + 18) /\
    from_wei wei = Ok back /\
    Dec.eq back (Dec.Finite false 1000000005 (-9)) = Ok true.
Proof.
  apply (round_trip_exact_when_representable 1000000005 (-9)).
  - lia.
  - reflexivity.
  - lia.
  - lia.
Defined.

Example to_wei_exact_scenario :
  to_wei "1.000000005" = Ok 1000000005000000000.
Proof. vm_compute. reflexivity. Qed.



(** A string that is not a numeral ends [send_ctxc] with the invalid-amount
    message. *)
Example non_numeric_amount_scenario :
  to_wei "abc" = Raise InvalidOperation /\
  fst (fst (run (scripted dynamic_node)
              (send_ctxc to_checksum_address account_a 21)
              ["2"; recipient; "abc"; ""; "ya"]))
  = Ok InvalidAmount.
Proof. split; vm_compute; reflexivity. Qed.

(** The explicit tip -1 makes [send_ctxc] raise, after the prompts. *)
Example negative_tip_scenario :
  fst (fst (run (scripted dynamic_node)
              (send_ctxc to_checksum_address account_a 21)
              ["2"; recipient; "0.5"; "-1"; "ya"]))
  = Raise ValueError.
Proof. vm_compute. reflexivity. Qed.


Example reserved_name_registry :
  load_accounts from_key to_checksum_address reserved_name_twice
  = ([("LEGACY", account_b)], []).
Proof. vm_compute. reflexivity. Qed.



End Scenarios.

(** * Further properties of the pipeline *)

Section SubmissionRuns.

Variable to_checksum_address : string -> result string.
Context {S : Type} (h : handler S).
Variables (acct : LocalAccount) (chain_id : Z).

(** What [send_ctxc] does after [build_tx], answer by answer. *)
Lemma run_submit (p : Prepared) (s1 : S) :
  run h (send_ctxc_submit acct p) s1 =
  match estimate_fee (tx p) with
  | Raise e => (Raise e, s1, [])
  | Ok est_fee =>
      let balance_call := mkCall (GetBalance (from_addr p)) in
      let confirm_call := mkCall (Input PromptConfirm) in
      let sign_call := mkCall (SignTransaction (tx p) (key acct)) in
      let '(b, s2) := h _ (GetBalance (from_addr p)) s1 in
      match b with
      | Raise e => (Raise e, s2, [balance_call])
      | Ok balance =>
          if Z.of_N balance <? value_wei p + est_fee
          then (Ok InsufficientFunds, s2, [balance_call])
          else
            let '(y, s3) := h _ (Input PromptConfirm) s2 in
            match y with
            | Raise e => (Raise e, s3, [balance_call; confirm_call])
            | Ok answer =>
                if negb (accepted answer)
                then (Ok UserCancelled, s3, [balance_call; confirm_call])
                else
                  let '(sg, s4) :=
                    h _ (SignTransaction (tx p) (key acct)) s3 in
                  match sg with
                  | Raise e =>
                      (if caught_on_send e then Ok (SendFailed e) else Raise e,
                       s4, [balance_call; confirm_call; sign_call])
                  | Ok signed =>
                      match raw_of signed with
                      | None =>
                          (Ok (SendFailed RuntimeError), s4,
                           [balance_call; confirm_call; sign_call])
                      | Some raw =>
                          let '(r, s5) := h _ (SendRawTransaction raw) s4 in
                          (match r with
                           | Ok tx_hash => Ok (Sent tx_hash)
                           | Raise e =>
                               if caught_on_send e then Ok (SendFailed e)
                               else Raise e
                           end,
                           s5,
                           [balance_call; confirm_call; sign_call;
                            mkCall (SendRawTransaction raw)])
                      end
                  end
            end
      end
  end.
Proof.
  unfold send_ctxc_submit.
  rewrite run_bind, run_lift.
  destruct (estimate_fee (tx p)) as [est_fee | e]; [ | reflexivity ].
  cbn [pbind call run].
  destruct (h _ (GetBalance (from_addr p)) s1) as [[balance | e] s2];
    [ | reflexivity ].
  cbn [pbind]. destruct (Z.of_N balance <? value_wei p + est_fee);
    [ reflexivity | ].
  cbn [pbind call run].
  destruct (h _ (Input PromptConfirm) s2) as [[answer | e] s3];
    [ | reflexivity ].
  cbn [pbind]. destruct (negb (accepted answer)); [ reflexivity | ].
  unfold sign_and_send. cbn [pbind call run try_].
  destruct (h _ (SignTransaction (tx p) (key acct)) s3) as [[signed | e] s4].
  - cbn [pbind]. destruct (raw_of signed) as [raw | ].
    + cbn [pbind call run try_].
      destruct (h _ (SendRawTransaction raw) s4) as [[tx_hash | e] s5].
      * reflexivity.
      * cbn. destruct (caught_on_send e); reflexivity.
    + reflexivity.
  - cbn. destruct (caught_on_send e); reflexivity.
Qed.

Lemma run_send_ctxc (s : S) :
  run h (send_ctxc to_checksum_address acct chain_id) s =
  let '(prepared, s1, tr1) :=
    run h (send_ctxc_prepare to_checksum_address acct chain_id) s in
  match prepared with
  | Raise e => (Raise e, s1, tr1)
  | Ok (inl o) => (Ok o, s1, tr1)
  | Ok (inr p) =>
      let '(r, s2, tr2) := run h (send_ctxc_submit acct p) s1 in
      (r, s2, tr1 ++ tr2)
  end.
Proof.
  unfold send_ctxc. rewrite run_bind.
  destruct (run h (send_ctxc_prepare to_checksum_address acct chain_id) s)
    as [[[[o | p] | e] s1] tr1]; try reflexivity.
  simpl. now rewrite app_nil_r.
Qed.

Lemma quiet_filter (P : Call -> bool) (tr : list Call) :
  quiet P tr = true -> filter P tr = [].
Proof.
  induction tr as [ | c tr IH]; simpl; [ reflexivity | ].
  unfold quiet; simpl. intros H. apply andb_prop in H as [Hc Htr].
  apply negb_true_iff in Hc. rewrite Hc. now apply IH.
Qed.

Lemma quiet_commit_quiet_broadcast (tr : list Call) :
  quiet is_sign_or_broadcast tr = true -> quiet is_broadcast tr = true.
Proof.
  unfold quiet. rewrite !forallb_forall. intros H c Hin.
  specialize (H c Hin). destruct c as [X e]. destruct e; auto.
Qed.

Lemma prepare_quiet (s : S) :
  quiet is_sign_or_broadcast
    (snd (run h (send_ctxc_prepare to_checksum_address acct chain_id) s)) = true.
Proof. apply never_run, prepare_never_commits. Qed.



(** No run of [send_ctxc] signs more than once or broadcasts more than
    once, and a broadcast only follows a signature obtained in the same
    run. *)
Theorem submission_commits_at_most_once (s : S) :
  let tr := snd (run h (send_ctxc to_checksum_address acct chain_id) s) in
  (List.length (filter is_broadcast tr) <= 1)%nat /\
  (List.length (filter is_sign_or_broadcast tr)
   <= 1 + List.length (filter is_broadcast tr))%nat /\
  (filter is_broadcast tr <> [] ->
   exists raw, filter is_sign_or_broadcast tr
     = [mkCall (SignTransaction
                  match fst (fst (run h (send_ctxc_prepare to_checksum_address
                                           acct chain_id) s)) with
                  | Ok (inr p) => tx p
                  | _ => []
                  end (key acct));
        mkCall (SendRawTransaction raw)]).
Proof.
  cbv zeta. rewrite run_send_ctxc.
  pose proof (prepare_quiet s) as Hq.
  destruct (run h (send_ctxc_prepare to_checksum_address acct chain_id) s)
    as [[[[o | p] | e] s1] tr1]; simpl in Hq; cbn [fst snd].
  1, 3: pose proof (quiet_commit_quiet_broadcast _ Hq) as Hb;
    rewrite (quiet_filter _ _ Hq), (quiet_filter _ _ Hb); simpl;
    repeat split; try lia; congruence.
  pose proof (quiet_commit_quiet_broadcast _ Hq) as Hb.
  rewrite run_submit.
  destruct (estimate_fee (tx p)) as [est_fee | e].
  2: { cbn [snd]. rewrite app_nil_r, (quiet_filter _ _ Hq), (quiet_filter _ _ Hb).
       simpl. repeat split; try lia; congruence. }
  destruct (h _ (GetBalance (from_addr p)) s1) as [[balance | e] s2].
  2: { cbn [snd]. rewrite !filter_app, (quiet_filter _ _ Hq), (quiet_filter _ _ Hb).
       simpl. repeat split; try lia; congruence. }
  destruct (Z.of_N balance <? value_wei p + est_fee).
  { cbn [snd]. rewrite !filter_app, (quiet_filter _ _ Hq), (quiet_filter _ _ Hb).
    simpl. repeat split; try lia; congruence. }
  destruct (h _ (Input PromptConfirm) s2) as [[answer | e] s3].
  2: { cbn [snd]. rewrite !filter_app, (quiet_filter _ _ Hq), (quiet_filter _ _ Hb).
       simpl. repeat split; try lia; congruence. }
  destruct (negb (accepted answer)).
  { cbn [snd]. rewrite !filter_app, (quiet_filter _ _ Hq), (quiet_filter _ _ Hb).
    simpl. repeat split; try lia; congruence. }
  destruct (h _ (SignTransaction (tx p) (key acct)) s3) as [[signed | e] s4].
  2: { cbn [snd]. rewrite !filter_app, (quiet_filter _ _ Hq), (quiet_filter _ _ Hb).
       simpl. repeat split; try lia; congruence. }
  destruct (raw_of signed) as [raw | ].
  2: { cbn [snd]. rewrite !filter_app, (quiet_filter _ _ Hq), (quiet_filter _ _ Hb).
       simpl. repeat split; try lia; congruence. }
  destruct (h _ (SendRawTransaction raw) s4) as [r s5].
  cbn [snd]. rewrite !filter_app, (quiet_filter _ _ Hq), (quiet_filter _ _ Hb).
  simpl. repeat split; try lia. intros _. exists raw. reflexivity.
Qed.



(** The balance query of line 372 has no fallback: when it raises, so does
    [send_ctxc], before any confirmation, signature or broadcast. *)
Theorem balance_query_failure_aborts
    (s s1 s2 : S) (p : Prepared) (tr1 : list Call) (est_fee : Z) (e : Exn) :
  run h (send_ctxc_prepare to_checksum_address acct chain_id) s
    = (Ok (inr p), s1, tr1) ->
  estimate_fee (tx p) = Ok est_fee ->
  h _ (GetBalance (from_addr p)) s1 = (Raise e, s2) ->
  run h (send_ctxc to_checksum_address acct chain_id) s
  = (Raise e, s2, tr1 ++ [mkCall (GetBalance (from_addr p))]) /\
  quiet is_sign_or_broadcast (tr1 ++ [mkCall (GetBalance (from_addr p))]) = true.
Proof.
  intros Hprep Hfee Hbal.
  pose proof (prepare_quiet s) as Hq. rewrite Hprep in Hq; simpl in Hq.
  split.
  - rewrite run_send_ctxc, Hprep, run_submit, Hfee, Hbal. reflexivity.
  - rewrite quiet_app, Hq. reflexivity.
Qed.


End SubmissionRuns.

Section PipelineScenarios.

Import Scenario Faults.
Local Open Scope string_scope.

Local Notation "'legacy_prepared' v" :=
  (mkPrepared (address account_a) recipient v
     [("from", VStr (address account_a)); ("to", VStr recipient);
      ("value", VInt v); ("nonce", VInt 7);
      ("gas", VInt 21000); ("gasPrice", VInt 7142857142858);
      ("chainId", VInt 21)]) (at level 10, v at level 9).

Local Notation "'legacy_trace'" :=
  [mkCall (GetBalance (address account_a));
   mkCall (Input PromptDestination); mkCall (Input PromptAddress);
   mkCall (Input PromptAmount); mkCall (Input PromptTip);
   mkCall (GetTransactionCount (address account_a));
   mkCall GetBlockLatest; mkCall MaxPriorityFee; mkCall GasPrice].





(** The node answers no balance query: the first failure is tolerated,
    the second ends the call. *)
Lemma balance_failure_scenario :
  fst (fst (run (scripted no_balance_node)
              (send_ctxc to_checksum_address account_a 21)
              ["2"; recipient; "0.8"; ""; "ya"]))
  = Raise NodeError.
Proof.
  destruct (balance_query_failure_aborts to_checksum_address
              (scripted no_balance_node) account_a 21
              ["2"; recipient; "0.8"; ""; "ya"] ["ya"] ["ya"]
              (legacy_prepared 800000000000000000) legacy_trace
              150000000000018000 NodeError) as [Hrun _].
  - vm_compute. reflexivity.
  - vm_compute. reflexivity.
  - reflexivity.
  - rewrite Hrun. reflexivity.
Defined.


End PipelineScenarios.

(** ** Fee selection: queries, fields and ranges *)

Section FeeQueries.

Context {S : Type} (h : handler S).
Variables (sender recipient : string) (value_wei nonce chain_id : Z).

(** Whatever [w3.to_wei(_, "gwei")] returns lies between [0] and
    [2^256 - 1]. *)
Lemma to_wei_gwei_range (number : Dec.Decimal) (r : Z) :
  W3.to_wei_gwei number = Ok r -> 0 <= r <= W3.MAX_WEI.
Proof.
  assert (Hmax : 0 <= W3.MAX_WEI) by (vm_compute; discriminate).
  unfold W3.to_wei_gwei.
  destruct number as [s c e | s | sg]; [ | discriminate | discriminate ].
  destruct (c =? 0); [ intros [= <-]; lia | ].
  destruct (Dec.mul_at 999 _ _) as [[s' c' e' | s' | sg'] | x];
    cbn [rbind]; try discriminate.
  - destruct (W3.lt_int _ _ || W3.gt_int _ _) eqn:Hout; [ discriminate | ].
    apply orb_false_elim in Hout as [Hlt Hgt].
    unfold W3.lt_int, W3.gt_int, W3.MIN_WEI in Hlt, Hgt.
    unfold Dec.to_int. intros [= <-].
    destruct (e' >=? 0) eqn:He.
    + apply Z.ltb_ge in Hlt.
      assert (Hle : Dec.signed s' c' * 10 ^ e' <= W3.MAX_WEI)
        by (destruct (Z.gtb_spec (Dec.signed s' c' * 10 ^ e') W3.MAX_WEI);
            [ discriminate | assumption ]).
      unfold Dec.signed in *. destruct s'; lia.
    + apply Z.ltb_ge in Hlt. rewrite Z.mul_0_l in Hlt.
      assert (He' : e' < 0)
        by (destruct (Z.geb_spec e' 0); [ discriminate | lia ]).
      assert (Hk : 0 < 10 ^ (- e')) by (apply Z.pow_pos_nonneg; lia).
      assert (Hle : Dec.signed s' c' <= W3.MAX_WEI * 10 ^ (- e'))
        by (destruct (Z.gtb_spec (Dec.signed s' c') (W3.MAX_WEI * 10 ^ (- e')));
            [ discriminate | assumption ]).
      unfold Dec.signed in *. destruct s'.
      * assert (c' = 0 \/ c' < 0) as [-> | Hneg] by lia.
        { rewrite Z.div_0_l by lia. simpl. lia. }
        split.
        { assert (c' / 10 ^ (- e') <= 0)
            by (apply Z.div_le_upper_bound; lia). lia. }
        { assert (- W3.MAX_WEI <= c' / 10 ^ (- e'))
            by (apply Z.div_le_lower_bound; lia). lia. }
      * split.
        { apply Z.div_pos; lia. }
        { apply Z.div_le_upper_bound; lia. }
  - destruct (W3.lt_int _ _ || W3.gt_int _ _); discriminate.
Qed.

(** The queries [build_tx] makes, in order: the latest block, always; the
    suggested priority fee, exactly when no tip was typed (also when the
    quote will be a legacy one, which has no use for it); the gas price,
    exactly when the block gave no base fee and the typed tip, if any,
    converted. *)
Theorem build_tx_queries (tip : option Dec.Decimal) (s : S) :
  snd (run h (build_tx sender recipient value_wei nonce chain_id tip) s)
  = mkCall GetBlockLatest
    :: match tip with
       | None => [mkCall MaxPriorityFee]
       | Some _ => []
       end
    ++ match fst (h _ GetBlockLatest s), tip with
       | Ok (Some _), _ => []
       | _, None => [mkCall GasPrice]
       | _, Some explicit =>
           if is_ok (W3.to_wei_gwei explicit) then [mkCall GasPrice] else []
       end.
Proof.
  rewrite run_build_tx, run_latest_base_fee.
  destruct tip as [explicit | ].
  - rewrite run_choose_priority_explicit.
    destruct (W3.to_wei_gwei explicit) as [p | e];
      destruct (fst (h _ GetBlockLatest s)) as [[b | ] | e'];
      rewrite ?run_legacy_gas_price; reflexivity.
  - rewrite run_choose_priority_auto.
    destruct (fst (h _ GetBlockLatest s)) as [[b | ] | e'];
      rewrite ?run_legacy_gas_price; reflexivity.
Qed.

(** A failed query for the latest block is treated as a block without a
    base fee: the quote is a legacy one, priced as the node suggests or at
    2 gwei. *)
Theorem block_query_failure_gives_legacy_quote
    (tip : option Dec.Decimal) (s : S) (e : Exn) :
  fst (h _ GetBlockLatest s) = Raise e ->
  (forall explicit, tip = Some explicit ->
     is_ok (W3.to_wei_gwei explicit) = true) ->
  exists t s' tr s2,
    run h (build_tx sender recipient value_wei nonce chain_id tip) s
      = (Ok (t, "legacy"%string), s', tr) /\
    s2 = snd (fst (run h (choose_priority tip) (snd (h _ GetBlockLatest s)))) /\
    Dict.get "gasPrice" t =
      Some (VInt (match fst (h _ GasPrice s2) with
                  | Ok suggested => Z.of_N suggested
                  | Raise _ => 2000000000
                  end)) /\
    Dict.mem "maxFeePerGas" t = false.
Proof.
  intros Hblock Htip.
  rewrite run_build_tx, run_latest_base_fee, Hblock.
  destruct tip as [explicit | ].
  - rewrite run_choose_priority_explicit.
    specialize (Htip explicit eq_refl).
    destruct (W3.to_wei_gwei explicit) as [p | x]; [ | discriminate ].
    rewrite run_legacy_gas_price.
    eexists _, _, _, _; repeat split; reflexivity.
  - rewrite run_choose_priority_auto, run_legacy_gas_price.
    eexists _, _, _, _; repeat split; reflexivity.
Qed.

(** Every transaction [build_tx] returns carries its arguments unchanged,
    a gas limit of 21000, and exactly the keys of its fee model, whose name
    is returned with it; no fee field is negative and [maxFeePerGas] is at
    least [maxPriorityFeePerGas]. *)
Theorem build_tx_envelope
    (tip : option Dec.Decimal) (s s' : S) (t : Tx) (model : string)
    (tr : list Call) :
  run h (build_tx sender recipient value_wei nonce chain_id tip) s
    = (Ok (t, model), s', tr) ->
  Dict.get "from" t = Some (VStr sender) /\
  Dict.get "to" t = Some (VStr recipient) /\
  Dict.get "value" t = Some (VInt value_wei) /\
  Dict.get "nonce" t = Some (VInt nonce) /\
  Dict.get "chainId" t = Some (VInt chain_id) /\
  Dict.get "gas" t = Some (VInt 21000) /\
  ((model = "legacy"%string /\
    Dict.keys t = ["from"; "to"; "value"; "nonce"; "gas"; "gasPrice";
                   "chainId"]%string /\
    exists gas_price,
      Dict.get "gasPrice" t = Some (VInt gas_price) /\ 0 <= gas_price) \/
   (model = "eip1559"%string /\
    Dict.keys t = ["from"; "to"; "value"; "nonce"; "gas"; "maxFeePerGas";
                   "maxPriorityFeePerGas"; "chainId"]%string /\
    exists max_fee priority,
      Dict.get "maxFeePerGas" t = Some (VInt max_fee) /\
      Dict.get "maxPriorityFeePerGas" t = Some (VInt priority) /\
      0 <= priority <= max_fee)).
Proof.
  rewrite run_build_tx, run_latest_base_fee.
  assert (Hprio : forall s1 priority s2 tr2,
             run h (choose_priority tip) s1 = (Ok priority, s2, tr2) ->
             0 <= priority).
  { intros s1 priority s2 tr2. destruct tip as [explicit | ].
    - rewrite run_choose_priority_explicit. intros [= Hp _ _].
      apply to_wei_gwei_range in Hp. lia.
    - rewrite run_choose_priority_auto. intros [= <- _ _].
      destruct (fst (h _ MaxPriorityFee s1)); lia. }
  destruct (run h (choose_priority tip) (snd (h _ GetBlockLatest s)))
    as [[[priority | e] s2] tr2] eqn:Hrun.
  2: destruct (fst (h _ GetBlockLatest s)) as [[b | ] | e']; discriminate.
  apply Hprio in Hrun.
  destruct (fst (h _ GetBlockLatest s)) as [[b | ] | e'].
  - intros [= <- <- _ _]. repeat (split; [ reflexivity | ]).
    right. split; [ reflexivity | split; [ reflexivity | ] ].
    eexists _, _. split; [ reflexivity | split; [ reflexivity | lia ] ].
  - rewrite run_legacy_gas_price. intros [= <- <- _ _].
    repeat (split; [ reflexivity | ]).
    left. split; [ reflexivity | split; [ reflexivity | ] ].
    eexists. split; [ reflexivity | ].
    destruct (fst (h _ GasPrice s2)); lia.
  - rewrite run_legacy_gas_price. intros [= <- <- _ _].
    repeat (split; [ reflexivity | ]).
    left. split; [ reflexivity | split; [ reflexivity | ] ].
    eexists. split; [ reflexivity | ].
    destruct (fst (h _ GasPrice s2)); lia.
Qed.

End FeeQueries.

(** * Start-up *)

Section StartupFacts.

Local Open Scope string_scope.

Lemma normalize_rpc_has_scheme (url : string) :
  has_scheme (normalize_rpc url) = true.
Proof.
  assert (Hnew : PyStr.startswith ("http://" ++ url) "http://" = true).
  { unfold PyStr.startswith. simpl. now destruct url. }
  unfold has_scheme, normalize_rpc.
  destruct (PyStr.startswith url "http://") eqn:E1;
    destruct (PyStr.startswith url "https://") eqn:E2; cbn [negb andb orb];
    rewrite ?E1, ?E2, ?Hnew; reflexivity.
Qed.

(** [normalize_rpc] always returns a URL with one of the two schemes,
    leaves such a URL alone, and so is idempotent. *)
Theorem normalize_rpc_scheme (url : string) :
  has_scheme (normalize_rpc url) = true /\
  (has_scheme url = true -> normalize_rpc url = url) /\
  normalize_rpc (normalize_rpc url) = normalize_rpc url.
Proof.
  split; [ apply normalize_rpc_has_scheme | ].
  assert (Hid : forall u, has_scheme u = true -> normalize_rpc u = u).
  { intros u. unfold has_scheme, normalize_rpc.
    destruct (PyStr.startswith u "http://");
      destruct (PyStr.startswith u "https://"); cbn [negb andb orb];
      reflexivity || discriminate. }
  split; [ apply Hid | ].
  apply Hid, normalize_rpc_has_scheme.
Qed.

(** [load_web3] either exits with status 2 or hands out a client for an
    endpoint that has a scheme and answered; when [CTXC_RPC_URL] is unset
    the endpoint is the built-in one over plain HTTP. *)
Theorem load_web3_outcome (env : Env) (is_connected : string -> bool) :
  match load_web3 env is_connected with
  | Connected rpc =>
      has_scheme rpc = true /\ is_connected rpc = true /\
      (getenv env "CTXC_RPC_URL" = None ->
       rpc = "http://security.cortexlabs.ai:30088")
  | Exit code => code = 2
  end.
Proof.
  unfold load_web3.
  destruct (is_connected _) eqn:Hc; [ | reflexivity ].
  split; [ apply normalize_rpc_has_scheme | split; [ exact Hc | ] ].
  intros ->. reflexivity.
Qed.

(** *** [int] on the strings the code gives it *)

Lemma scan_all_digits (s : string) (after_digit : bool) :
  PyInt.all_digits s = true ->
  PyStr.truthy s || after_digit = true ->
  PyInt.scan_digits s after_digit = Some (list_ascii_of_string s, EmptyString).
Proof.
  revert after_digit. induction s as [ | c s IH]; intros after_digit Hall Hne.
  - simpl in Hne. subst after_digit. reflexivity.
  - simpl in Hall. apply andb_prop in Hall as [Hc Hs].
    simpl. rewrite Hc, (IH true Hs) by apply orb_true_r. reflexivity.
Qed.

Lemma all_digits_forall (s : string) :
  PyInt.all_digits s = true ->
  Forall (fun c => PyStr.is_digit c = true) (list_ascii_of_string s).
Proof.
  induction s as [ | c s IH]; simpl; intros H; [ constructor | ].
  apply andb_prop in H as [Hc Hs]. constructor; auto.
Qed.

Lemma digit_not_space (c : ascii) :
  PyStr.is_digit c = true -> PyInt.is_space c = false.
Proof.
  unfold PyStr.is_digit, PyInt.is_space. intros H.
  apply andb_prop in H as [H1 H2]. apply Nat.leb_le in H1.
  destruct (Nat.leb_spec (PyStr.code c) 13); [ lia | ].
  rewrite andb_false_r. apply Nat.eqb_neq. lia.
Qed.

Lemma digit_not_sign (c : ascii) (s : string) :
  PyStr.is_digit c = true -> Dec.split_sign (String c s) = (false, String c s).
Proof.
  intros H. unfold Dec.split_sign.
  destruct c as [[] [] [] [] [] [] [] []]; try reflexivity; discriminate.
Qed.

Lemma length_list_ascii (s : string) :
  List.length (list_ascii_of_string s) = String.length s.
Proof. induction s; simpl; congruence. Qed.


(** *** The chain id *)

Section ChainId.

Variable max_str_digits : nat.

(** When the node answers, its chain id is the one used, whatever
    [CTXC_CHAIN_ID] says, provided the warning could be printed. *)
Theorem enforced_chain_id_follows_node
    (env : Env) (actual : Z) (warned : result unit) :
  warned = Ok tt ->
  enforced_chain_id max_str_digits env (Ok actual) warned = actual.
Proof.
  intros ->. unfold enforced_chain_id.
  destruct (negb (actual =? env_chain max_str_digits env)%Z); reflexivity.
Qed.


End ChainId.

End StartupFacts.

(** * Balances of all accounts *)

Section BalancesFacts.

Variable to_checksum_address : string -> result string.
Context {S : Type} (h : handler S).

Lemma run_balance_info (acct : LocalAccount) (s : S) :
  exists info s1 tr,
    run h (balance_info to_checksum_address acct) s = (Ok info, s1, tr) /\
    (List.length tr <= 1)%nat /\
    forallb is_balance_query tr = true /\
    balance_entry to_checksum_address acct info.
Proof.
  unfold balance_info. rewrite run_bind, run_try.
  destruct (to_checksum_address (address acct)) as [addr | e] eqn:Haddr.
  - cbn [lift pbind]. rewrite run_bind, run_call.
    destruct (h _ (GetBalance addr) s) as [[wei | e] s1]; cbn [fst snd].
    + destruct (from_wei (Z.of_N wei)) as [c | e] eqn:Hc; cbn.
      * eexists _, _, _. split; [ reflexivity | ].
        repeat split; auto; cbn; auto; lia.
      * eexists _, _, _. split; [ reflexivity | ].
        repeat split; auto.
    + cbn. eexists _, _, _. split; [ reflexivity | ]. repeat split; auto.
  - cbn. eexists _, _, _. split; [ reflexivity | ]. repeat split; auto.
Qed.

Lemma run_get_all_balances_from (items : Registry)
    (res : list (string * Info.t)) (s : S) :
  exists res' s' tr,
    run h (get_all_balances_from to_checksum_address items res) s
      = (Ok res', s', tr) /\
    (List.length tr <= List.length items)%nat /\
    forallb is_balance_query tr = true /\
    (NoDup (Dict.keys res ++ Dict.keys items) ->
     Dict.keys res' = Dict.keys res ++ Dict.keys items /\
     (forall n, ~ In n (Dict.keys items) -> Dict.get n res' = Dict.get n res) /\
     (forall name acct, In (name, acct) items ->
        exists info, Dict.get name res' = Some info /\
                     balance_entry to_checksum_address acct info)).
Proof.
  revert res s. induction items as [ | [name acct] rest IH]; intros res s.
  - exists res, s, []. cbn. repeat split; auto.
    + now rewrite app_nil_r.
    + intros ? ? [].
  - cbn [get_all_balances_from]. rewrite run_bind.
    destruct (run_balance_info acct s) as (info & s1 & tr1 & -> & Hlen1 & Hq1 & Hrow).
    destruct (IH (Dict.set name info res) s1)
      as (res' & s' & tr & -> & Hlen & Hq & Hkeys).
    exists res', s', (tr1 ++ tr). split; [ reflexivity | ].
    split; [ rewrite length_app; cbn [List.length]; lia | ].
    split; [ rewrite forallb_app, Hq1, Hq; reflexivity | ].
    intros Hnd. cbn [Dict.keys map fst] in Hnd.
    assert (Hfresh : ~ In name (Dict.keys res)).
    { intros Hin. apply NoDup_remove_2 in Hnd. apply Hnd.
      apply in_or_app. now left. }
    assert (Hset : Dict.keys (Dict.set name info res) = Dict.keys res ++ [name]).
    { rewrite set_fresh by exact Hfresh. unfold Dict.keys.
      now rewrite map_app. }
    destruct Hkeys as (Hk & Hold & Hnew).
    { rewrite Hset, <- app_assoc. exact Hnd. }
    split; [ | split ].
    + rewrite Hk, Hset, <- app_assoc. reflexivity.
    + intros n Hn. cbn [Dict.keys map fst] in Hn.
      rewrite Hold by (intros Hin; apply Hn; now right).
      apply get_set_other. intros ->. apply Hn. now left.
    + intros name' acct' [[= <- <-] | Hin].
      * exists info. split; [ | exact Hrow ].
        rewrite Hold; [ apply get_set_same | ].
        apply NoDup_remove_2 in Hnd. intros Hin. apply Hnd.
        apply in_or_app. now right.
      * apply Hnew, Hin.
Qed.

(** [get_all_balances] never raises, whatever the node answers and
    whatever the addresses are; its only calls are balance queries, at most
    one per account. *)
Theorem get_all_balances_total (accounts : Registry) (s : S) :
  exists res s' tr,
    run h (get_all_balances to_checksum_address accounts) s = (Ok res, s', tr) /\
    (List.length tr <= List.length accounts)%nat /\
    forallb is_balance_query tr = true.
Proof.
  destruct (run_get_all_balances_from accounts [] s)
    as (res & s' & tr & Hrun & Hlen & Hq & _).
  exists res, s', tr. auto.
Qed.

(** The result has one entry per account, in the order of the registry;
    the entry of an account whose address or balance query failed carries
    the error and a zero balance, every other entry the checksum address,
    the balance and its conversion to units. *)
Theorem get_all_balances_entries (accounts : Registry) (s : S) :
  NoDup (Dict.keys accounts) ->
  exists res,
    fst (fst (run h (get_all_balances to_checksum_address accounts) s)) = Ok res /\
    Dict.keys res = Dict.keys accounts /\
    forall name acct, In (name, acct) accounts ->
      exists info, Dict.get name res = Some info /\
                   balance_entry to_checksum_address acct info.
Proof.
  intros Hnd.
  destruct (run_get_all_balances_from accounts [] s)
    as (res & s' & tr & Hrun & _ & _ & Hkeys).
  destruct (Hkeys Hnd) as (Hk & _ & Hrows).
  exists res. unfold get_all_balances. rewrite Hrun. auto.
Qed.

End BalancesFacts.

(** * Account selection *)

Section SelectionFacts.

Variable to_checksum_address : string -> result string.
Variable max_str_digits : nat.

Lemma name_at_keys {V} (d : list (string * V)) (idx : Z) (n : string) :
  name_at (Dict.keys d) idx = Some n ->
  0 <= idx /\ exists v, nth_error d (Z.to_nat idx) = Some (n, v).
Proof.
  unfold name_at, Dict.keys.
  destruct (Z.leb_spec 0 idx); [ | discriminate ].
  destruct (idx <? _); cbn [andb]; [ | discriminate ].
  rewrite nth_error_map.
  destruct (nth_error d (Z.to_nat idx)) as [[k v] | ]; [ | discriminate ].
  intros [= <-]. eauto.
Qed.

Lemma name_at_none {V} (d : list (string * V)) (idx : Z) :
  name_at (Dict.keys d) idx = None ->
  idx < 0 \/ nth_error d (Z.to_nat idx) = None.
Proof.
  unfold name_at, Dict.keys. rewrite length_map.
  destruct (Z.leb_spec 0 idx); [ | now left ].
  destruct (Z.ltb_spec idx (Z.of_nat (List.length d))); cbn [andb].
  - rewrite nth_error_map.
    destruct (nth_error d (Z.to_nat idx)); [ discriminate | now right ].
  - intros _. right. apply nth_error_None. lia.
Qed.

(** [pick_account] reads at most one line, and what it returns is an entry
    of the registry it was given. *)
Theorem pick_account_sound (accounts : Registry) (stdin rest : list string)
    (n : string) (acct : LocalAccount) :
  pick_account to_checksum_address max_str_digits accounts stdin
    = (Ok (Some (n, acct)), rest) ->
  Dict.get n accounts = Some acct /\ rest = tl stdin.
Proof.
  unfold pick_account.
  destruct accounts as [ | entry accounts']; [ discriminate | ].
  set (accounts := entry :: accounts').
  unfold IO.bind, IO.lift, IO.ret.
  destruct (show_accounts to_checksum_address accounts); [ | discriminate ].
  destruct stdin as [ | line stdin']; cbn [input_line tl]; [ discriminate | ].
  destruct (negb (PyStr.truthy (PyStr.strip line))); [ discriminate | ].
  destruct (if PyInt.isdigit (PyStr.strip line) then _ else _)
    as [[name | ] | e]; [ | | discriminate ].
  - destruct (Dict.get name accounts) as [found | ] eqn:Hget; [ | discriminate ].
    intros [= <- <- <-]. auto.
  - destruct (Dict.get (PyStr.strip line) accounts) as [found | ] eqn:Hget;
      [ | discriminate ].
    intros [= <- <- <-]. auto.
Qed.


End SelectionFacts.

(** * Favourites *)

Section FavoritesFacts.

Variable J : Type.
Variable jstr : string -> J.
Variable to_checksum_address : string -> result string.
Variable to_checksum_json : J -> result string.
Variable max_str_digits : nat.

Local Notation "'add'" := (fav_add J jstr to_checksum_address).
Local Notation "'remove'" := (fav_remove J max_str_digits).
Local Notation "'pick'" := (fav_pick J to_checksum_json max_str_digits).

Lemma get_delete_other {V} (k n : string) (d : list (string * V)) :
  k <> n -> Dict.get n (Fav.delete k d) = Dict.get n d.
Proof.
  intros Hne. induction d as [ | [k' v] d IH]; cbn; [ reflexivity | ].
  destruct (String.eqb k k') eqn:E.
  - apply String.eqb_eq in E. subst k'.
    replace (String.eqb n k) with false; [ reflexivity | ].
    symmetry. apply String.eqb_neq. congruence.
  - cbn. now rewrite IH.
Qed.

Lemma get_delete_same {V} (k : string) (d : list (string * V)) :
  NoDup (Dict.keys d) -> Dict.get k (Fav.delete k d) = None.
Proof.
  induction d as [ | [k' v] d IH]; cbn; [ reflexivity | ].
  intros Hnd. inversion Hnd as [ | ? ? Hnotin Hnd']; subst.
  destruct (String.eqb k k') eqn:E.
  - apply String.eqb_eq in E. subst k'. now apply get_none.
  - cbn. rewrite E. auto.
Qed.

Lemma name_at_in (names : list string) (idx : Z) (n : string) :
  name_at names idx = Some n -> In n names.
Proof.
  unfold name_at. destruct (_ && _); [ | discriminate ].
  apply nth_error_In.
Qed.

Lemma mem_in {V} (k : string) (d : list (string * V)) :
  Dict.mem k d = true <-> In k (Dict.keys d).
Proof.
  unfold Dict.mem. pose proof (get_none k d) as H.
  destruct (Dict.get k d) as [v | ].
  - split; [ intros _ | reflexivity ].
    destruct (in_dec string_dec k (Dict.keys d)) as [Hin | Hout]; [ exact Hin | ].
    apply H in Hout. discriminate.
  - split; [ discriminate | ]. intros Hin. now apply H in Hin.
Qed.

Ltac io_step :=
  cbn [Fav.stdin Fav.file Fav.write_error input_line fst snd PyStr.truthy negb].

Ltac unchanged := left; split; [ reflexivity | discriminate ].

(** The two ways [fav_add] can end. *)
Lemma fav_add_cases (w : Fav.World J) :
  (Fav.file (snd (add w)) = Fav.file w /\
   forall name checksum, fst (add w) <> Ok (Fav.Saved name checksum)) \/
  exists name addr checksum,
    fst (add w) = Ok (Fav.Saved name checksum) /\
    name <> ""%string /\
    to_checksum_address addr = Ok checksum /\
    Fav.file (snd (add w))
    = Fav.Stored (Dict.set name (jstr checksum) (Fav.content (Fav.file w))).
Proof.
  unfold fav_add, IO.bind, IO.ret, input, fav_load, fav_save.
  destruct w as [stdin file write_error]; io_step.
  destruct stdin as [ | name_in stdin]; io_step; [ unchanged | ].
  destruct (PyStr.strip name_in) as [ | c name'] eqn:Hname; io_step;
    [ unchanged | ].
  destruct stdin as [ | addr_in stdin]; io_step; [ unchanged | ].
  destruct (to_checksum_address (PyStr.strip addr_in)) as [checksum | e] eqn:Hc;
    io_step; [ | unchanged ].
  destruct (Dict.mem (String c name') (Fav.content file)).
  - destruct stdin as [ | y stdin]; io_step; [ unchanged | ].
    destruct (String.eqb _ "ya"); io_step; [ | unchanged ].
    destruct write_error; io_step; [ unchanged | ].
    right. exists (String c name'), (PyStr.strip addr_in), checksum.
    repeat split; auto. discriminate.
  - io_step. destruct write_error; io_step; [ unchanged | ].
    right. exists (String c name'), (PyStr.strip addr_in), checksum.
    repeat split; auto. discriminate.
Qed.


(** After [fav_add] reports a saved entry, [fav_load] returns it under its
    name and every other name as before. *)
Theorem fav_add_then_load (w : Fav.World J) (name checksum : string) :
  fst (add w) = Ok (Fav.Saved name checksum) ->
  exists favs,
    fst (fav_load J (snd (add w))) = Ok favs /\
    Dict.get name favs = Some (jstr checksum) /\
    forall other, other <> name ->
      Dict.get other favs = Dict.get other (Fav.content (Fav.file w)).
Proof.
  intros Hsaved.
  destruct (fav_add_cases w) as [[_ Hnot] | (n & a & c & Hr & _ & _ & Hfile)].
  - now apply Hnot in Hsaved.
  - rewrite Hr in Hsaved. injection Hsaved as -> ->.
    unfold fav_load. cbn [fst]. rewrite Hfile. cbn [Fav.content].
    eexists. split; [ reflexivity | ].
    split; [ apply get_set_same | ].
    intros other Hne. apply get_set_other. congruence.
Qed.

Lemma remove_target_cases (favs : Favs J) (target : option string)
    (w : Fav.World J) :
  (Fav.file (snd (remove_target J favs target w)) = Fav.file w /\
   forall t, fst (remove_target J favs target w) <> Ok (Fav.Deleted t)) \/
  exists t,
    target = Some t /\ t <> ""%string /\
    fst (remove_target J favs target w) = Ok (Fav.Deleted t) /\
    Fav.file (snd (remove_target J favs target w))
    = Fav.Stored (Fav.delete t favs).
Proof.
  unfold remove_target, IO.bind, IO.ret, fav_save.
  destruct target as [[ | c t'] | ]; io_step; [ unchanged | | unchanged ].
  destruct (Fav.write_error w); io_step; [ unchanged | ].
  right. exists (String c t'). repeat split; auto. discriminate.
Qed.

(** The two ways [fav_remove] can end. *)
Lemma fav_remove_cases (w : Fav.World J) :
  (Fav.file (snd (remove w)) = Fav.file w /\
   forall target, fst (remove w) <> Ok (Fav.Deleted target)) \/
  exists target,
    fst (remove w) = Ok (Fav.Deleted target) /\
    target <> ""%string /\
    In target (Dict.keys (Fav.content (Fav.file w))) /\
    Fav.file (snd (remove w))
    = Fav.Stored (Fav.delete target (Fav.content (Fav.file w))).
Proof.
  unfold fav_remove, IO.bind, IO.ret, IO.lift, input, fav_load.
  destruct w as [stdin file write_error]; io_step.
  destruct (Fav.content file) as [ | entry favs'] eqn:Hfavs; io_step;
    [ unchanged | ].
  rewrite <- Hfavs. clear Hfavs entry favs'.
  destruct stdin as [ | choice_in stdin]; io_step; [ unchanged | ].
  destruct (PyStr.truthy (PyStr.strip choice_in)); io_step; [ | unchanged ].
  assert (Hsave : forall target,
    (forall t, target = Some t -> In t (Dict.keys (Fav.content file))) ->
    let r := remove_target J (Fav.content file) target
               (Fav.mkWorld stdin file write_error) in
    (Fav.file (snd r) = file /\ forall t, fst r <> Ok (Fav.Deleted t)) \/
    exists t, fst r = Ok (Fav.Deleted t) /\ t <> ""%string /\
              In t (Dict.keys (Fav.content file)) /\
              Fav.file (snd r) = Fav.Stored (Fav.delete t (Fav.content file))).
  { intros target Hin r.
    destruct (remove_target_cases (Fav.content file) target
                (Fav.mkWorld stdin file write_error))
      as [Hsame | (t & Ht & Hne & Hr & Hfile)]; [ left; exact Hsame | right ].
    exists t. auto. }
  destruct (PyInt.isdigit (PyStr.strip choice_in)).
  - destruct (PyInt.of_string max_str_digits (PyStr.strip choice_in)) as [n | e];
      cbn [rbind]; io_step; [ | unchanged ].
    apply Hsave. intros t Hat. now apply name_at_in in Hat.
  - destruct (Dict.mem (PyStr.strip choice_in) (Fav.content file)) eqn:Hmem;
      io_step.
    + apply Hsave. intros t [= <-]. now apply mem_in.
    + apply Hsave. discriminate.
Qed.

(** When [fav_remove] reports a deletion, the name deleted is not empty,
    it is gone from what [fav_load] returns next, and every other entry is
    as before. *)
Theorem fav_remove_deletes_one (w : Fav.World J) (target : string) :
  NoDup (Dict.keys (Fav.content (Fav.file w))) ->
  fst (remove w) = Ok (Fav.Deleted target) ->
  target <> ""%string /\
  Dict.mem target (Fav.content (Fav.file w)) = true /\
  exists favs,
    fst (fav_load J (snd (remove w))) = Ok favs /\
    Dict.get target favs = None /\
    forall other, other <> target ->
      Dict.get other favs = Dict.get other (Fav.content (Fav.file w)).
Proof.
  intros Hnd Hdel.
  destruct (fav_remove_cases w) as [[_ Hnot] | (t & Hr & Hne & Hin & Hfile)].
  - now apply Hnot in Hdel.
  - rewrite Hr in Hdel. injection Hdel as ->.
    split; [ exact Hne | split; [ now apply mem_in | ] ].
    unfold fav_load. cbn [fst]. rewrite Hfile. cbn [Fav.content].
    eexists. split; [ reflexivity | ].
    split; [ now apply get_delete_same | ].
    intros other Hother. apply get_delete_other. congruence.
Qed.



(** [fav_pick] never changes the file, and an address it returns is the
    checksum form of an address stored in it. *)
Theorem fav_pick_sound (w : Fav.World J) :
  Fav.file (snd (pick w)) = Fav.file w /\
  forall checksum, fst (pick w) = Ok (Some checksum) ->
    exists name addr,
      Dict.get name (Fav.content (Fav.file w)) = Some addr /\
      to_checksum_json addr = Ok checksum.
Proof.
  assert (Hsum : forall name checksum,
            checksum_of J to_checksum_json (Fav.content (Fav.file w)) name
              = Ok checksum ->
            exists n addr,
              Dict.get n (Fav.content (Fav.file w)) = Some addr /\
              to_checksum_json addr = Ok checksum).
  { unfold checksum_of. intros name checksum.
    destruct (Dict.get name _) as [addr | ] eqn:Hget; [ | discriminate ].
    eauto. }
  unfold fav_pick, IO.bind, IO.ret, IO.lift, input, fav_load.
  destruct w as [stdin file write_error]; io_step. cbn [Fav.file] in Hsum.
  destruct (Fav.content file) as [ | entry favs'] eqn:Hfavs; io_step;
    [ split; [ reflexivity | discriminate ] | ].
  rewrite <- Hfavs in *. clear Hfavs entry favs'.
  destruct stdin as [ | raw_in stdin]; io_step;
    [ split; [ reflexivity | discriminate ] | ].
  destruct (PyStr.truthy (PyStr.strip raw_in)); io_step;
    [ | split; [ reflexivity | discriminate ] ].
  destruct (PyInt.isdigit (PyStr.strip raw_in)).
  - destruct (PyInt.of_string max_str_digits (PyStr.strip raw_in)) as [n | e];
      io_step; [ | split; [ reflexivity | discriminate ] ].
    destruct (name_at _ (n - 1)) as [name | ]; io_step;
      [ | split; [ reflexivity | discriminate ] ].
    destruct (checksum_of J to_checksum_json (Fav.content file) name)
      as [c | e] eqn:Hc; io_step; [ | split; [ reflexivity | discriminate ] ].
    split; [ reflexivity | ]. intros checksum [= <-]. eapply Hsum, Hc.
  - destruct (Dict.mem (PyStr.strip raw_in) (Fav.content file)); io_step;
      [ | split; [ reflexivity | discriminate ] ].
    destruct (checksum_of J to_checksum_json (Fav.content file)
                (PyStr.strip raw_in))
      as [c | e] eqn:Hc; io_step; [ | split; [ reflexivity | discriminate ] ].
    split; [ reflexivity | ]. intros checksum [= <-]. eapply Hsum, Hc.
Qed.

End FavoritesFacts.

(** * Unit conversion: truncation, and the way back from an integer *)

Section Truncation.

Lemma to_wei_dec_value (s : bool) (c e : Z) :
  0 < c -> c < 10 ^ 50 -> Dec.Emin <= e -> e <= 999932 ->
  to_wei_dec (Dec.Finite s c e)
  = Ok (Dec.signed s (if e >=? 0 then c * 10 ^ (e + 18)
                      else c * 10 ^ 18 / 10 ^ (- e))).
Proof.
  intros Hc Hlt Hlo Hhi.
  pose proof (ndigits_below c 50 Hc Hlt) as Hnd.
  destruct (ndigits_bounds c Hc) as [Hnd1 _].
  assert (Hscale : Dec.ndigits (c * 10 ^ 18) = Dec.ndigits c + 18)
    by (apply ndigits_scale; lia).
  set (nd := Dec.ndigits c) in *.
  set (k := Z.max 0 (nd + 18 - 50)).
  assert (Hk : 0 <= k <= 18) by lia.
  pose proof (pow10_pos k ltac:(lia)) as Hpk.
  assert (Hsplit : c * 10 ^ 18 = c * 10 ^ (18 - k) * 10 ^ k).
  { rewrite <- Z.mul_assoc, <- pow10_split by lia. f_equal; f_equal; lia. }
  unfold to_wei_dec, Dec.mul, Dec.mul_at, Dec.TEN18.
  rewrite xorb_false_r, Z.add_0_r.
  unfold Dec.Emin in Hlo.
  rewrite fix_at_exact; unfold Dec.prec, Dec.Emax, Dec.Emin; rewrite ?Hscale;
    fold k; try lia.
  - cbn [rbind Dec.to_int].
    set (v := if e >=? 0 then c * 10 ^ (e + 18) else c * 10 ^ 18 / 10 ^ (- e)).
    rewrite Hsplit, Z.div_mul by lia.
    assert (Hm : (if e + k >=? 0
                  then c * 10 ^ (18 - k) * 10 ^ (e + k)
                  else c * 10 ^ (18 - k) / 10 ^ (- (e + k))) = v).
    { subst v. destruct (e >=? 0) eqn:E.
      + apply Z.geb_le in E.
        replace (e + k >=? 0) with true by (symmetry; apply Z.geb_le; lia).
        rewrite <- Z.mul_assoc, <- pow10_split by lia.
        f_equal; f_equal; lia.
      + rewrite Z.geb_leb in E. apply Z.leb_gt in E.
        destruct (e + k >=? 0) eqn:E'.
        * apply Z.geb_le in E'.
          rewrite <- Z.mul_assoc, <- pow10_split by lia.
          replace (c * 10 ^ 18) with (c * 10 ^ (18 - k + (e + k)) * 10 ^ (- e)).
          { rewrite Z.div_mul; [ reflexivity | ].
            pose proof (pow10_pos (- e)); lia. }
          rewrite <- Z.mul_assoc, <- pow10_split by lia. f_equal; f_equal; lia.
        * rewrite Z.geb_leb in E'. apply Z.leb_gt in E'.
          rewrite Hsplit.
          replace (10 ^ (- e)) with (10 ^ (- (e + k)) * 10 ^ k)
            by (rewrite <- pow10_split by lia; f_equal; lia).
          rewrite Z.div_mul_cancel_r; [ reflexivity | | lia ].
          pose proof (pow10_pos (- (e + k))); lia. }
    rewrite Hm. reflexivity.
  - rewrite Hsplit. apply Z.mod_mul. lia.
Qed.

(** [to_wei] on an amount of at most 50 digits: the amount times [10^18],
    cut towards zero when it has more than 18 digits after the point. *)
Theorem to_wei_truncates (s : bool) (c e : Z) :
  0 < c -> c < 10 ^ 50 -> Dec.Emin <= e -> e < 0 ->
  exists n,
    to_wei_dec (Dec.Finite s c e) = Ok (Dec.signed s n) /\
    n * 10 ^ (- e) <= c * 10 ^ 18 < (n + 1) * 10 ^ (- e).
Proof.
  intros Hc Hlt Hlo Hneg.
  exists (c * 10 ^ 18 / 10 ^ (- e)).
  rewrite to_wei_dec_value by lia.
  replace (e >=? 0) with false
    by (symmetry; rewrite Z.geb_leb; apply Z.leb_gt; lia).
  split; [ reflexivity | ].
  pose proof (pow10_pos (- e) ltac:(lia)) as Hp.
  pose proof (Z.div_mod (c * 10 ^ 18) (10 ^ (- e)) ltac:(lia)) as Hdm.
  pose proof (Z.mod_pos_bound (c * 10 ^ 18) (10 ^ (- e)) Hp) as Hmod.
  lia.
Qed.

End Truncation.

Section IntegerRoundTrip.

(** A rounded coefficient has at most [p] digits. *)
Lemma fix_at_coef_bound (p : Z) (s s' : bool) (c e c' e' : Z) :
  0 < p -> 0 <= c ->
  Dec.fix_at p s c e = Ok (Dec.Finite s' c' e') ->
  0 <= c' < 10 ^ p.
Proof.
  intros Hp Hc.
  pose proof (pow10_pos p ltac:(lia)) as Hpp.
  unfold Dec.fix_at.
  destruct (c =? 0) eqn:Hz; [ intros [= _ <- _]; lia | ].
  apply Z.eqb_neq in Hz. assert (Hpos : 0 < c) by lia.
  destruct (ndigits_bounds c Hpos) as [Hnd1 [Hlo Hhi]].
  set (nd := Dec.ndigits c) in *.
  destruct (nd + e - p >? Dec.Emax - p + 1); [ discriminate | ].
  set (exp_min := if nd + e - p <? Dec.Emin - p + 1
                  then Dec.Emin - p + 1 else nd + e - p).
  assert (Hmin : nd + e - p <= exp_min).
  { subst exp_min. destruct (Z.ltb_spec (nd + e - p) (Dec.Emin - p + 1)); lia. }
  destruct (Z.ltb_spec e exp_min) as [Hround | Hkeep].
  - destruct (Z.ltb_spec (nd + e - exp_min) 0) as [Hneg | Hnn].
    + change (Dec.ndigits 1) with 1.
      change (Dec.round_half_even 1 (1 - 0)) with false.
      change (1 / 10 ^ (1 - 0)) with 0.
      cbv iota. destruct (exp_min >? Dec.Emax - p + 1); [ discriminate | ].
      intros [= _ <- _]. lia.
    + fold nd. set (digits := nd + e - exp_min) in *.
      set (k := nd - digits).
      assert (Hk : 0 < k) by (subst k digits; lia).
      pose proof (pow10_pos k ltac:(lia)) as Hpk.
      pose proof (pow10_pos digits Hnn) as Hpd.
      assert (Hcoeff : 0 <= c / 10 ^ k < 10 ^ digits).
      { split; [ apply Z.div_pos; lia | ].
        apply Z.div_lt_upper_bound; [ lia | ].
        rewrite <- pow10_split by lia.
        replace (k + digits) with nd by (subst k; lia). exact Hhi. }
      assert (Hdp : 10 ^ digits <= 10 ^ p)
        by (apply Z.pow_le_mono_r; subst digits; lia).
      destruct (Dec.round_half_even c k).
      * destruct (Z.gtb_spec (Dec.ndigits (c / 10 ^ k + 1)) p) as [Hbig | Hfit].
        { destruct (exp_min + 1 >? Dec.Emax - p + 1); [ discriminate | ].
          intros [= _ <- _]. split; [ apply Z.div_pos; lia | ].
          apply Z.div_lt_upper_bound; lia. }
        { destruct (exp_min >? Dec.Emax - p + 1); [ discriminate | ].
          intros [= _ <- _]. split; [ lia | ].
          destruct (ndigits_bounds (c / 10 ^ k + 1) ltac:(lia)) as [_ [_ Hup]].
          assert (10 ^ Dec.ndigits (c / 10 ^ k + 1) <= 10 ^ p)
            by (apply Z.pow_le_mono_r; lia).
          lia. }
      * destruct (exp_min >? Dec.Emax - p + 1); [ discriminate | ].
        intros [= _ <- _]. lia.
  - intros [= _ <- _]. split; [ lia | ].
    assert (10 ^ nd <= 10 ^ p) by (apply Z.pow_le_mono_r; lia).
    lia.
Qed.

(** Converting a balance below [10^50] smallest units to units and back
    gives the balance again: the quotient of [from_wei] is exact and
    [to_wei] has nothing to cut. *)
Theorem from_wei_then_to_wei (wei_amount : Z) :
  0 <= wei_amount -> wei_amount < 10 ^ 50 ->
  exists units,
    from_wei wei_amount = Ok units /\ to_wei_dec units = Ok wei_amount.
Proof.
  intros Hnn Hlt.
  destruct (Z.eq_dec wei_amount 0) as [-> | Hnz].
  { exists (Dec.Finite false 0 0). split; vm_compute; reflexivity. }
  assert (Hpos : 0 < wei_amount) by lia.
  destruct (from_wei_exact wei_amount (-18) Hpos Hlt ltac:(lia) ltac:(lia))
    as (cf & ef & u & Hback & Hu & Hval & Hexp).
  change (-18 + 18) with 0 in Hback. rewrite Z.pow_0_r, Z.mul_1_r in Hback.
  pose proof (ndigits_below wei_amount 50 Hpos Hlt) as Hnd.
  destruct (ndigits_bounds wei_amount Hpos) as [Hnd1 _].
  set (t := 52 - Dec.ndigits wei_amount) in *.
  pose proof (pow10_pos t ltac:(lia)) as Hpt.
  pose proof (pow10_pos u Hu) as Hpu.
  assert (Hcf : 0 <= cf < 10 ^ 50).
  { unfold from_wei, Dec.of_int, Dec.div, Dec.TEN18 in Hback.
    replace (wei_amount <? 0) with false in Hback
      by (symmetry; apply Z.ltb_ge; lia).
    rewrite Z.abs_eq in Hback by lia. cbn [xorb] in Hback.
    replace (10 ^ 18 =? 0) with false in Hback by reflexivity.
    replace (wei_amount =? 0) with false in Hback
      by (symmetry; apply Z.eqb_neq; lia).
    rewrite ndigits_ten18 in Hback. unfold Dec.prec in Hback.
    replace (19 - Dec.ndigits wei_amount + 50 + 1 >=? 0) with true in Hback
      by (symmetry; apply Z.geb_le; lia).
    replace (wei_amount * 10 ^ (19 - Dec.ndigits wei_amount + 50 + 1))
      with (wei_amount * 10 ^ (t + 18)) in Hback by (f_equal; f_equal; lia).
    rewrite pow10_split, Z.mul_assoc in Hback by lia.
    rewrite div_eucl_exact in Hback by reflexivity.
    cbn [Z.eqb] in Hback.
    destruct (strip_zeros_spec
                (Z.to_nat (0 - 0 - (0 - 0 - (19 - Dec.ndigits wei_amount + 50 + 1))))
                (wei_amount * 10 ^ t)
                (0 - 0 - (19 - Dec.ndigits wei_amount + 50 + 1)) ltac:(nia))
      as (j & Hj & _ & _ & Hfst).
    destruct (Dec.strip_zeros _ _ _) as [coeff' exp']. cbn [fst] in Hfst.
    unfold Dec.fix_ in Hback.
    eapply (fix_at_coef_bound Dec.prec); [ reflexivity | | exact Hback ]. lia. }
  assert (Hcfpos : 0 < cf) by nia.
  assert (Hubound : u < 50 + t).
  { assert (H : 10 ^ u < 10 ^ (50 + t)).
    { rewrite pow10_split by lia. nia. }
    apply Z.pow_lt_mono_r_iff in H; lia. }
  exists (Dec.Finite false cf ef). split; [ exact Hback | ].
  assert (Hef : ef + 18 = u - t) by lia.
  rewrite to_wei_dec_value; unfold Dec.Emin; try lia.
  cbn [Dec.signed]. f_equal.
  destruct (ef >=? 0) eqn:E.
  - apply Z.geb_le in E.
    apply (pow10_cancel _ _ t); [ lia | ].
    rewrite <- Hval, <- Z.mul_assoc, <- pow10_split by lia.
    f_equal; f_equal; lia.
  - rewrite Z.geb_leb in E. apply Z.leb_gt in E.
    pose proof (pow10_pos (- ef) ltac:(lia)) as Hpe.
    replace (cf * 10 ^ 18) with (wei_amount * 10 ^ (- ef));
      [ apply Z.div_mul; lia | ].
    apply (pow10_cancel _ _ u Hu).
    assert (H1 : cf * 10 ^ 18 * 10 ^ u = cf * 10 ^ u * 10 ^ 18) by ring.
    assert (H2 : wei_amount * 10 ^ (- ef) * 10 ^ u
                 = wei_amount * 10 ^ t * 10 ^ 18).
    { rewrite <- !Z.mul_assoc, <- !pow10_split by lia. f_equal; f_equal; lia. }
    rewrite H1, H2, Hval. reflexivity.
Qed.

End IntegerRoundTrip.

(** * The registry and its users *)

Section RegistryUse.

Variable from_key : string -> result LocalAccount.
Variable to_checksum_address : string -> result string.

Local Notation "'loadK'" := (load_accounts from_key to_checksum_address).

Lemma get_filter {V} (p : string * V -> bool) (k : string)
    (d : list (string * V)) :
  (forall v, p (k, v) = true) ->
  Dict.get k (filter p d) = Dict.get k d.
Proof.
  intros Hp. induction d as [ | [k' v] d IH]; cbn; [ reflexivity | ].
  destruct (String.eqb k k') eqn:E.
  - apply String.eqb_eq in E. subst k'. rewrite Hp. cbn.
    now rewrite String.eqb_refl.
  - destruct (p (k', v)); cbn; [ now rewrite E | exact IH ].
Qed.

Lemma fold_load_named_filter (env : Env) (st : LoadState) :
  fold_left (load_named from_key to_checksum_address)
    (filter credential_variable env) st
  = fold_left (load_named from_key to_checksum_address) env st.
Proof.
  revert st. induction env as [ | [k v] env IH]; intros st;
    cbn [filter fold_left]; [ reflexivity | ].
  destruct (credential_variable (k, v)) eqn:Hcv; cbn [fold_left].
  - apply IH.
  - rewrite IH. unfold credential_variable in Hcv. cbn [fst] in Hcv.
    apply orb_false_elim in Hcv as [_ Hprefix].
    destruct st as [accounts warnings]. cbn [load_named].
    rewrite Hprefix. reflexivity.
Qed.

(** Only [CTXC_PRIVATE_KEY] and the variables that start with [CTXC_PK_]
    bear on the registry and on the warnings: the rest of the environment
    can be anything. *)
Theorem load_accounts_ignores_other_variables (env : Env) :
  loadK (filter credential_variable env) = loadK env.
Proof.
  unfold load_accounts. rewrite fold_load_named_filter.
  replace (load_legacy from_key to_checksum_address
             (filter credential_variable env) ([], []))
    with (load_legacy from_key to_checksum_address env ([], []));
    [ reflexivity | ].
  unfold load_legacy, getenv.
  rewrite get_filter; reflexivity.
Qed.


End RegistryUse.

(** * The further statements at concrete inputs *)

Section FurtherScenarios.

Import Scenario Faults Samples.
Local Open Scope string_scope.


(** The node cannot return the latest block: the quote is a legacy one
    at the suggested gas price. *)
Lemma block_failure_scenario :
  exists t,
    fst (fst (run (scripted no_block_node)
                (build_tx (address account_a) recipient 1 7 21 None) []))
    = Ok (t, "legacy") /\
    Dict.get "gasPrice" t = Some (VInt 5000000000).
Proof.
  destruct (block_query_failure_gives_legacy_quote (scripted no_block_node)
              (address account_a) recipient 1 7 21 None [] NodeError)
    as (t & s' & tr & s2 & Hrun & Hs2 & Hprice & _).
  - reflexivity.
  - discriminate.
  - exists t. rewrite Hrun. split; [ reflexivity | ].
    rewrite Hprice, Hs2. reflexivity.
Defined.

Lemma envelope_scenario :
  exists t,
    fst (fst (run (scripted dynamic_node)
                (build_tx (address account_a) recipient 1 7 21 None) []))
    = Ok (t, "eip1559") /\
    Dict.get "value" t = Some (VInt 1) /\
    Dict.get "chainId" t = Some (VInt 21) /\
    Dict.get "gas" t = Some (VInt 21000).
Proof.
  pose (t := [("from", VStr (address account_a)); ("to", VStr recipient);
              ("value", VInt 1); ("nonce", VInt 7); ("gas", VInt 21000);
              ("maxFeePerGas", VInt 202000000000);
              ("maxPriorityFeePerGas", VInt 2000000000); ("chainId", VInt 21)]).
  exists t. split; [ vm_compute; reflexivity | ].
  destruct (build_tx_envelope (scripted dynamic_node)
              (address account_a) recipient 1 7 21 None [] [] t "eip1559"
              [mkCall GetBlockLatest; mkCall MaxPriorityFee])
    as (_ & _ & Hvalue & _ & Hchain & Hgas & _).
  - vm_compute. reflexivity.
  - auto.
Defined.


(** The environment asks for chain 1, the node is on chain 21. *)
Lemma node_chain_scenario :
  enforced_chain_id 4300 [("CTXC_CHAIN_ID", "1")] (Ok 21) (Ok tt) = 21.
Proof.
  apply (enforced_chain_id_follows_node 4300 [("CTXC_CHAIN_ID", "1")] 21 (Ok tt)).
  reflexivity.
Defined.

Lemma nodup_two (a b : string) : a <> b -> NoDup [a; b].
Proof.
  intros Hne. constructor; [ intros [H | []]; congruence | ].
  constructor; [ intros [] | constructor ].
Qed.

Lemma balances_scenario :
  exists res,
    fst (fst (run (scripted legacy_node)
                (get_all_balances to_checksum_address two_accounts) []))
    = Ok res /\
    Dict.keys res = ["alice"; "bob"].
Proof.
  destruct (get_all_balances_entries to_checksum_address
              (scripted legacy_node) two_accounts [])
    as (res & Hrun & Hkeys & _).
  - apply nodup_two. discriminate.
  - exists res. split; [ exact Hrun | exact Hkeys ].
Defined.

Lemma pick_by_name_scenario :
  Dict.get "bob" two_accounts = Some account_b /\ [] = tl [" bob "].
Proof.
  apply (pick_account_sound to_checksum_address 4300 two_accounts
           [" bob "] [] "bob" account_b).
  vm_compute. reflexivity.
Defined.


(** A first favourite, saved into a file that does not exist yet. *)
Lemma fav_add_scenario :
  exists favs,
    fst (fav_load string
           (snd (fav_add string id to_checksum_address
                   (desk ["kantor"; recipient] Fav.Missing)))) = Ok favs /\
    Dict.get "kantor" favs = Some recipient.
Proof.
  destruct (fav_add_then_load string id to_checksum_address
              (desk ["kantor"; recipient] Fav.Missing) "kantor" recipient)
    as (favs & Hload & Hget & _).
  - vm_compute. reflexivity.
  - exists favs. split; [ exact Hload | exact Hget ].
Defined.

Lemma fav_remove_scenario :
  exists favs,
    fst (fav_load string
           (snd (fav_remove string 4300
                   (desk ["1"] (Fav.Stored address_book))))) = Ok favs /\
    Dict.get "kantor" favs = None /\
    Dict.get "rumah" favs = Some home.
Proof.
  destruct (fav_remove_deletes_one string 4300
              (desk ["1"] (Fav.Stored address_book)) "kantor")
    as (_ & _ & favs & Hload & Hgone & Hrest).
  - apply nodup_two. discriminate.
  - vm_compute. reflexivity.
  - exists favs. split; [ exact Hload | split; [ exact Hgone | ] ].
    rewrite Hrest by discriminate. reflexivity.
Defined.


(** 1.9 smallest units become 1, and -1.9 become -1. *)
Lemma truncation_scenario :
  exists n,
    to_wei_dec (Dec.Finite true 19 (-19)) = Ok (Dec.signed true n) /\
    n * 10 ^ (- -19) <= 19 * 10 ^ 18 < (n + 1) * 10 ^ (- -19).
Proof.
  apply (to_wei_truncates true 19 (-19)).
  - reflexivity.
  - reflexivity.
  - vm_compute. discriminate.
  - reflexivity.
Defined.

Lemma integer_round_trip_scenario :
  exists units,
    from_wei 1234567890123456789 = Ok units /\
    to_wei_dec units = Ok 1234567890123456789.
Proof.
  apply (from_wei_then_to_wei 1234567890123456789).
  - vm_compute. discriminate.
  - reflexivity.
Defined.

End FurtherScenarios.
